(** * dslink: registries, node persistence and the connect loop

    A shallow embedding of [dslink/DSLink.py] and [dslink/Connection.py].
    Python statements become computations in a small state-and-exception
    monad; a raised exception keeps every mutation made before it, as in
    Python. *)

From stdpp Require Import gmap strings list functions.
From Stdlib Require Import Ascii.

(** ** Python effects: mutable state plus exceptions *)

Inductive exn : Set :=
| KeyError | ValueError | IOError | OSError | TypeError | RuntimeError.

Global Instance exn_eq_dec : EqDecision exn.
Proof. solve_decision. Defined.

Inductive outcome (A : Type) : Type :=
| Return (a : A)
| Raise (e : exn).
Arguments Return {A} a.
Arguments Raise {A} e.

Definition py (S A : Type) : Type := S → outcome A * S.

Definition py_ret {S A} (a : A) : py S A := λ s, (Return a, s).

Definition py_bind {S A B} (f : A → py S B) (m : py S A) : py S B :=
  λ s, match m s with
       | (Return a, s') => f a s'
       | (Raise e, s') => (Raise e, s')
       end.

Definition raise {S A} (e : exn) : py S A := λ s, (Raise e, s).

Global Instance py_mret S : MRet (py S) := λ A, py_ret.
Global Instance py_mbind S : MBind (py S) := λ A B, py_bind.

(** [try: body except <catches>: handler]. The handler runs in the state
    the body left behind. *)
Definition try_except {S A} (body : py S A) (catches : exn → bool)
    (handler : exn → py S A) : py S A :=
  λ s, match body s with
       | (Return a, s') => (Return a, s')
       | (Raise e, s') => if catches e then handler e s' else (Raise e, s')
       end.

(** [except KeyError] *)
Definition is_KeyError (e : exn) : bool := bool_decide (e = KeyError).
(** [except Exception] and the bare [except:]; every [exn] above derives
    from [Exception]. *)
Definition is_Exception (e : exn) : bool := true.

Definition gets {S A} (f : S → A) : py S A := λ s, (Return (f s), s).
Definition modify {S} (f : S → S) : py S unit := λ s, (Return tt, f s).

Definition returns {S A} (m : py S A) (s : S) : Prop :=
  ∃ a, (m s).1 = Return a.

Definition always_returns {S A} (m : py S A) : Prop := ∀ s, returns m s.

Inductive level : Set := DEBUG | INFO | WARNING | ERROR.

Record log_record := LogRecord {
  lr_logger : string;
  lr_level : level;
  lr_msg : string
}.

(** ** LocalSubscriptionManager and StreamManager *)

Module Registry.
Section registry.
(** sids and rids are dictionary keys; nodes are Python objects, known
    by reference. [str] is what [%s] prints for an id. *)
Context {Id : Type} `{Countable Id}.
Context {NodeRef : Type} `{EqDecision NodeRef}.
Variable str : Id → string.

(** Modelled from the spec: the Node class, which lives in dslink/Node.py
    and not in the two modules embedded here. The data model gives a node
    a set of subscription ids; its [streams] attribute is the list the
    StreamManager appends to and removes from. The managers touch no
    other field. *)
Record Node := mkNode {
  subscribers : gset Id;
  streams : list Id
}.

Record state := mkState {
  subscriptions : gmap Id NodeRef;   (* LocalSubscriptionManager.subscriptions *)
  strman_streams : gmap Id NodeRef;  (* StreamManager.streams *)
  heap : NodeRef → Node;             (* the node objects *)
  log : list log_record
}.

Definition set_subscriptions (f : gmap Id NodeRef → gmap Id NodeRef) (st : state) :=
  mkState (f (subscriptions st)) (strman_streams st) (heap st) (log st).
Definition set_strman_streams (f : gmap Id NodeRef → gmap Id NodeRef) (st : state) :=
  mkState (subscriptions st) (f (strman_streams st)) (heap st) (log st).
Definition set_node (n : NodeRef) (f : Node → Node) (st : state) :=
  mkState (subscriptions st) (strman_streams st) (<[n := f (heap st n)]> (heap st)) (log st).
Definition add_log (r : log_record) (st : state) :=
  mkState (subscriptions st) (strman_streams st) (heap st) (log st ++ [r]).

(** [d[k]]: raises KeyError on a missing key. *)
Definition getitem (d : state → gmap Id NodeRef) (k : Id) : py state NodeRef :=
  λ st, match d st !! k with
        | Some n => (Return n, st)
        | None => (Raise KeyError, st)
        end.

(** [del d[k]]: raises KeyError on a missing key. *)
Definition delitem (d : state → gmap Id NodeRef)
    (upd : (gmap Id NodeRef → gmap Id NodeRef) → state → state) (k : Id) : py state unit :=
  λ st, match d st !! k with
        | Some _ => (Return tt, upd (delete k) st)
        | None => (Raise KeyError, st)
        end.

(** Modelled from the spec: Node.add_subscriber, registering the id in
    the node's subscriber set. *)
Definition add_subscriber (n : NodeRef) (sid : Id) : py state unit :=
  modify (set_node n (λ nd, mkNode ({[sid]} ∪ subscribers nd) (streams nd))).

(** Modelled from the spec: Node.remove_subscriber, deregistering the id
    from the node's subscriber set. *)
Definition remove_subscriber (n : NodeRef) (sid : Id) : py state unit :=
  modify (set_node n (λ nd, mkNode (subscribers nd ∖ {[sid]}) (streams nd))).

(** [list.append] on the node's [streams] attribute. *)
Definition streams_append (n : NodeRef) (rid : Id) : py state unit :=
  modify (set_node n (λ nd, mkNode (subscribers nd) (streams nd ++ [rid]))).

(** [list.remove]: drops the first occurrence, ValueError when there is none. *)
Fixpoint list_remove_first (x : Id) (l : list Id) : option (list Id) :=
  match l with
  | [] => None
  | y :: l' => if decide (x = y) then Some l'
               else cons y <$> list_remove_first x l'
  end.

Definition streams_remove (n : NodeRef) (rid : Id) : py state unit :=
  λ st, match list_remove_first rid (streams (heap st n)) with
        | Some l => (Return tt, set_node n (λ nd, mkNode (subscribers nd) l) st)
        | None => (Raise ValueError, st)
        end.

Definition logger_debug (name msg : string) : py state unit :=
  modify (add_log (LogRecord name DEBUG msg)).

Definition subscribe (node : NodeRef) (sid : Id) : py state unit :=
  modify (set_subscriptions <[sid := node]>) ;;
  n ← getitem subscriptions sid ;
  add_subscriber n sid.

Definition unsubscribe (sid : Id) : py state unit :=
  try_except
    (n ← getitem subscriptions sid ;
     remove_subscriber n sid ;;
     delitem subscriptions set_subscriptions sid)
    is_KeyError
    (λ _, logger_debug "DSlink" ("Unknown sid " +:+ str sid)).

Definition open_stream (node : NodeRef) (rid : Id) : py state unit :=
  modify (set_strman_streams <[rid := node]>) ;;
  n ← getitem strman_streams rid ;
  streams_append n rid.

Definition close_stream (rid : Id) : py state unit :=
  try_except
    (n ← getitem strman_streams rid ;
     streams_remove n rid ;;
     delitem strman_streams set_strman_streams rid)
    is_KeyError
    (λ _, logger_debug "DSLink" ("Unknown rid " +:+ str rid)).

(** Every id a node counts among its subscribers is a key of the
    subscription mapping. *)
Definition subscribers_mapped (st : state) : Prop :=
  ∀ n sid, sid ∈ subscribers (heap st n) → is_Some (subscriptions st !! sid).

(** The subscription mapping and the subscriber sets say the same: a
    node lists a sid exactly when the sid maps to that node. *)
Definition subscriptions_exact (st : state) : Prop :=
  ∀ n sid, sid ∈ subscribers (heap st n) ↔ subscriptions st !! sid = Some n.

(** Every mapped rid occurs in the stream list of the node it maps to. *)
Definition streams_listed (st : state) : Prop :=
  ∀ rid n, strman_streams st !! rid = Some n → rid ∈ streams (heap st n).

End registry.
End Registry.

(** ** DSLink: loading and saving the node tree *)

Module Persistence.

Inductive mode : Set := R | W.

(** What the process does to the outside world, in program order. *)
Inductive event : Type :=
| EvRemove (p : string)
| EvRename (src dst : string)
| EvOpen (p : string) (m : mode)
| EvRead (p : string)
| EvWrite (p data : string)
| EvFlush (p : string)
| EvFsync (p : string)
| EvClose (p : string)
| EvPrint (e : exn)
| EvLog (lvl : level) (msg : string).

(** Calls queued with [reactor.callLater]. *)
Inductive callback : Set := CallSaveTimer.

Section persistence.
(** The collaborators of DSLink outside the two modules embedded here:
    the json module and the Node class. Each may raise. *)
Context {Json Tree : Type}.
Variable json_loads : string → outcome Json.       (* json.load, on the text read *)
Variable Node_from_json : Json → outcome Tree.     (* Node.from_json(obj, None, "", link=self) *)
Variable Node_to_json : Tree → outcome Json.       (* super_root.to_json() *)
Variable json_dumps : Json → outcome string.       (* json.dumps(_, sort_keys=True, indent=2) *)
Variable Node_new : string → Tree.                 (* Node(name, None) *)
Variable nodes_path : string.                      (* self.config.nodes_path *)

Record state := mkState {
  nodes_changed : bool;
  super_root : Tree;
  files : gmap string string;          (* the disk: path ↦ content *)
  faults : list bool;                  (* which of the coming system calls fail *)
  trace : list event;
  delayed_calls : list (Z * callback)  (* the reactor's queue *)
}.

Definition set_nodes_changed (b : bool) (st : state) :=
  mkState b (super_root st) (files st) (faults st) (trace st) (delayed_calls st).
Definition set_super_root (t : Tree) (st : state) :=
  mkState (nodes_changed st) t (files st) (faults st) (trace st) (delayed_calls st).
Definition set_files (f : gmap string string → gmap string string) (st : state) :=
  mkState (nodes_changed st) (super_root st) (f (files st)) (faults st) (trace st)
          (delayed_calls st).
Definition set_faults (l : list bool) (st : state) :=
  mkState (nodes_changed st) (super_root st) (files st) l (trace st) (delayed_calls st).
Definition emit (ev : event) (st : state) :=
  mkState (nodes_changed st) (super_root st) (files st) (faults st) (trace st ++ [ev])
          (delayed_calls st).
Definition set_delayed_calls (f : list (Z * callback) → list (Z * callback)) (st : state) :=
  mkState (nodes_changed st) (super_root st) (files st) (faults st) (trace st)
          (f (delayed_calls st)).

Definition lift {A} (o : outcome A) : py state A := λ st, (o, st).

(** Every call into the operating system takes the next entry of the
    fault oracle and fails with [e] when it says so; an exhausted oracle
    means no further faults. *)
Definition syscall (e : exn) : py state unit :=
  λ st, match faults st with
        | true :: l => (Raise e, set_faults l st)
        | false :: l => (Return tt, set_faults l st)
        | [] => (Return tt, st)
        end.

Definition os_path_exists (p : string) : py state bool :=
  gets (λ st, bool_decide (is_Some (files st !! p))).

Definition unlink (p : string) : py state unit :=
  λ st, match files st !! p with
        | Some _ => (Return tt, emit (EvRemove p) (set_files (delete p) st))
        | None => (Raise OSError, st)
        end.

Definition os_remove (p : string) : py state unit :=
  syscall OSError ;; unlink p.

Definition move (src dst : string) : py state unit :=
  λ st, match files st !! src with
        | Some c => (Return tt, emit (EvRename src dst)
                                  (set_files (λ m, <[dst := c]> (delete src m)) st))
        | None => (Raise OSError, st)
        end.

Definition os_rename (src dst : string) : py state unit :=
  syscall OSError ;; move src dst.

(** [open(p, "r")] needs the file; [open(p, "w")] creates or truncates
    it. The file object is represented by its path. *)
Definition open_file (p : string) (m : mode) : py state string :=
  λ st, match m with
        | R => match files st !! p with
               | Some _ => (Return p, emit (EvOpen p R) st)
               | None => (Raise IOError, st)
               end
        | W => (Return p, emit (EvOpen p W) (set_files <[p := ""]> st))
        end.

Definition open_ (p : string) (m : mode) : py state string :=
  syscall IOError ;; open_file p m.

Definition read_all (f : string) : py state string :=
  λ st, match files st !! f with
        | Some c => (Return c, emit (EvRead f) st)
        | None => (Raise IOError, st)
        end.

Definition file_read (f : string) : py state string :=
  syscall IOError ;; read_all f.

(** Writes are modelled unbuffered: the data is in the file once
    [write] returns, [flush] and [fsync] only leave their mark in the
    trace. *)
Definition file_write (f data : string) : py state unit :=
  syscall IOError ;;
  modify (λ st, emit (EvWrite f data)
                  (set_files (λ m, <[f := default "" (m !! f) +:+ data]> m) st)).

Definition file_flush (f : string) : py state unit :=
  syscall IOError ;; modify (emit (EvFlush f)).

Definition os_fsync (f : string) : py state unit :=
  syscall OSError ;; modify (emit (EvFsync f)).

Definition file_close (f : string) : py state unit :=
  syscall IOError ;; modify (emit (EvClose f)).

(** [json.load(f)]: read the whole file, then parse. *)
Definition json_load (f : string) : py state Json :=
  text ← file_read f ; lift (json_loads text).

Definition print (e : exn) : py state unit := modify (emit (EvPrint e)).
Definition logger_error (msg : string) : py state unit := modify (emit (EvLog ERROR msg)).
Definition logger_warn (msg : string) : py state unit := modify (emit (EvLog WARNING msg)).

Definition reactor_callLater (secs : Z) (cb : callback) : py state unit :=
  modify (set_delayed_calls (λ q, q ++ [(secs, cb)])).

Definition get_root_node : py state Tree := mret (Node_new "").

Definition get_default_nodes : py state Tree := get_root_node.

Definition load_nodes : py state Tree :=
  ex ← os_path_exists nodes_path ;
  if ex : bool then
    try_except
      (nodes_file ← open_ nodes_path R ;
       obj ← json_load nodes_file ;
       file_close nodes_file ;;
       lift (Node_from_json obj))
      is_Exception
      (λ e,
         print e ;;
         logger_error "Unable to load nodes data" ;;
         ex_bak ← os_path_exists (nodes_path +:+ ".bak") ;
         if ex_bak : bool then
           try_except
             (logger_warn "Restoring backup nodes" ;;
              os_remove nodes_path ;;
              os_rename (nodes_path +:+ ".bak") nodes_path ;;
              nodes_file ← open_ nodes_path R ;
              obj ← json_load nodes_file ;
              file_close nodes_file ;;
              lift (Node_from_json obj))
             is_Exception
             (λ _,
                logger_error "Unable to restore nodes, using default" ;;
                get_default_nodes)
         else
           logger_warn "Backup nodes data doesn't exist, using default" ;;
           get_default_nodes)
  else get_default_nodes.

Definition save_nodes : py state unit :=
  changed ← gets nodes_changed ;
  if changed : bool then
    ex_bak ← os_path_exists (nodes_path +:+ ".bak") ;
    (if ex_bak : bool then os_remove (nodes_path +:+ ".bak") else mret tt) ;;
    ex ← os_path_exists nodes_path ;
    (if ex : bool then os_rename nodes_path (nodes_path +:+ ".bak") else mret tt) ;;
    nodes_file ← open_ nodes_path W ;
    root ← gets super_root ;
    obj ← lift (Node_to_json root) ;
    text ← lift (json_dumps obj) ;
    file_write nodes_file text ;;
    file_flush nodes_file ;;
    os_fsync nodes_file ;;
    file_close nodes_file ;;
    modify (set_nodes_changed false)
  else mret tt.

Definition save_timer : py state unit :=
  save_nodes ;;
  reactor_callLater 5 CallSaveTimer.

(** The event loop is Twisted's: it takes the next queued call, runs it,
    and logs an exception escaping from it instead of stopping. *)
Definition reactor_step : py state unit :=
  λ st, match delayed_calls st with
        | [] => (Return tt, st)
        | (_, CallSaveTimer) :: q =>
            try_except save_timer is_Exception
              (λ _, logger_error "Unhandled Error")
              (set_delayed_calls (λ _, q) st)
        end.

(** What a file's text deserializes to. *)
Definition deserialize (text : string) : outcome Tree :=
  match json_loads text with
  | Return obj => Node_from_json obj
  | Raise e => Raise e
  end.

(** What a tree serializes to. *)
Definition serialize (t : Tree) : outcome string :=
  match Node_to_json t with
  | Return obj => json_dumps obj
  | Raise e => Raise e
  end.

(** [m] leaves the dirty flag and the reactor's queue alone, however it
    ends. *)
Definition keeps_flag_and_queue {A} (m : py state A) : Prop :=
  ∀ st o st', m st = (o, st') →
    nodes_changed st' = nodes_changed st ∧ delayed_calls st' = delayed_calls st.

(** Started with the dirty flag set, [m] leaves the queue alone and, if it
    raises, leaves the flag set. *)
Definition raises_dirty {A} (m : py state A) : Prop :=
  ∀ st o st', nodes_changed st = true → m st = (o, st') →
    delayed_calls st' = delayed_calls st ∧
    ∀ e, o = Raise e → nodes_changed st' = true.

(** The events of one [open], [json.load], [close] on a file holding
    [text]: when json rejects the text the [close] is never reached. *)
Definition read_events (p text : string) : list event :=
  EvOpen p R :: EvRead p ::
  match json_loads text with
  | Return _ => [EvClose p]
  | Raise _ => []
  end.

(** [m] leaves the file at [q] alone, however it ends. *)
Definition keeps_path {A} (q : string) (m : py state A) : Prop :=
  ∀ st o st', m st = (o, st') → files st' !! q = files st !! q.

(** [n] turns of the reactor, as long as none lets an exception out. *)
Fixpoint reactor_steps (n : nat) : py state unit :=
  match n with
  | 0 => mret tt
  | S k => reactor_step ;; reactor_steps k
  end.

End persistence.

Definition is_read (ev : event) : bool :=
  match ev with EvRead _ => true | _ => false end.

Definition is_write (ev : event) : bool :=
  match ev with EvWrite _ _ => true | _ => false end.

(** Events that delete, rename, truncate or write a file. *)
Definition touches_disk (ev : event) : bool :=
  match ev with
  | EvRemove _ | EvRename _ _ | EvOpen _ W | EvWrite _ _ => true
  | _ => false
  end.

End Persistence.

(** ** Connection: the connect loop *)

Module Connection.

Inductive event : Type :=
| EvHandshake                     (* self.handshake.run_handshake() *)
| EvWsConnect                     (* self.websocket.connect(uri) *)
| EvCreatePingTask                (* create_task(self.ping()) *)
| EvWarningFailed (secs : Z)      (* "Failed to connect, attempting reconnect in %i seconds" *)
| EvErrorException (e : exn)      (* "Exception during connect: %s" *)
| EvInfoConnected                 (* "Connected" *)
| EvSleep (secs : Z).             (* asyncio.sleep(secs) *)

Global Instance event_eq_dec : EqDecision event.
Proof. solve_decision. Defined.

Record state := mkState {
  delay : Z;
  ping_task : bool;       (* whether a ping task has been created *)
  trace : list event
}.

(** How the broker answers one pass of the loop: the handshake's result
    and, when that is truthy, the websocket's. *)
Record attempt := mkAttempt {
  hs_res : outcome bool;
  ws_res : outcome bool
}.

Definition set_delay (d : Z) (st : state) := mkState d (ping_task st) (trace st).
Definition set_ping_task (b : bool) (st : state) := mkState (delay st) b (trace st).
Definition emit (ev : event) (st : state) :=
  mkState (delay st) (ping_task st) (trace st ++ [ev]).

Definition answer {A} (o : outcome A) : py state A := λ st, (o, st).

Definition run_handshake (a : attempt) : py state bool :=
  modify (emit EvHandshake) ;; answer (hs_res a).

(** [self.websocket.connect(self.config.get_ws_uri())]; an exception of
    either call is the [Raise] of [ws_res]. *)
Definition websocket_connect (a : attempt) : py state bool :=
  modify (emit EvWsConnect) ;; answer (ws_res a).

Definition create_ping_task : py state unit :=
  modify (λ st, set_ping_task true (emit EvCreatePingTask st)).

Definition logger_warning_failed : py state unit :=
  modify (λ st, emit (EvWarningFailed (delay st)) st).

Definition asyncio_sleep_delay : py state unit :=
  modify (λ st, emit (EvSleep (delay st)) st).

Definition logger_error_exception (e : exn) : py state unit :=
  modify (emit (EvErrorException e)).

(** One pass through the body of [while True]; the result tells whether
    the pass ended in [break]. *)
Definition iteration (a : attempt) : py state bool :=
  modify (λ st, if (delay st <? 60)%Z then set_delay (delay st + 1) st else st) ;;
  try_except
    (hs ← run_handshake a ;
     broke ← (if hs : bool then
                ws ← websocket_connect a ;
                if ws : bool then create_ping_task ;; mret true
                else mret false
              else mret false) ;
     if broke : bool then mret true
     else logger_warning_failed ;; asyncio_sleep_delay ;; mret false)
    is_Exception
    (λ e, logger_error_exception e ;; mret false).

Inductive status : Set :=
| Connected            (* connect() returned *)
| Retrying             (* still inside the loop when the script ran out *)
| Escaped (e : exn).   (* an exception left connect() *)

Fixpoint while_true (script : list attempt) (st : state) : status * state :=
  match script with
  | [] => (Retrying, st)
  | a :: script' =>
      match iteration a st with
      | (Return true, st') => (Connected, st')
      | (Return false, st') => while_true script' st'
      | (Raise e, st') => (Escaped e, st')
      end
  end.

Definition connect (script : list attempt) (st : state) : status * state :=
  match while_true script st with
  | (Connected, st') => (Connected, set_delay 0 (emit EvInfoConnected st'))
  | r => r
  end.

(** [Connection.__init__] *)
Definition init : state := mkState 0 false [].

Definition failed (a : attempt) : Prop :=
  match hs_res a with
  | Return true => ws_res a ≠ Return true
  | _ => True
  end.

Definition raises (a : attempt) (e : exn) : Prop :=
  hs_res a = Raise e ∨ (hs_res a = Return true ∧ ws_res a = Raise e).

Definition returns_failure (a : attempt) : Prop :=
  hs_res a = Return false ∨ (hs_res a = Return true ∧ ws_res a = Return false).

(** [if self.delay < 60: self.delay = self.delay + 1], on the number. *)
Definition bumped (d : Z) : Z := if (d <? 60)%Z then (d + 1)%Z else d.

(** The calls one pass makes to the broker before it knows the outcome. *)
Definition attempt_calls (a : attempt) : list event :=
  EvHandshake ::
  match hs_res a with
  | Return true => [EvWsConnect]
  | _ => []
  end.

Definition is_sleep (ev : event) : bool :=
  match ev with EvSleep _ => true | _ => false end.

(** Whether both the handshake and the websocket answer with a truthy
    value. *)
Definition accepted (a : attempt) : bool :=
  match hs_res a, ws_res a with
  | Return true, Return true => true
  | _, _ => false
  end.

(** What one pass through the loop leaves in the trace when [d] is the
    delay after the increment. *)
Definition pass_events (a : attempt) (d : Z) : list event :=
  attempt_calls a ++
  match hs_res a with
  | Return true =>
      match ws_res a with
      | Return true => [EvCreatePingTask]
      | Return false => [EvWarningFailed d; EvSleep d]
      | Raise e => [EvErrorException e]
      end
  | Return false => [EvWarningFailed d; EvSleep d]
  | Raise e => [EvErrorException e]
  end.

(** What the loop leaves in the trace on [script], entered with delay
    [d]: the passes up to and including the first accepted one. *)
Fixpoint loop_events (script : list attempt) (d : Z) : list event :=
  match script with
  | [] => []
  | a :: script' =>
      pass_events a (bumped d) ++
      if accepted a then [] else loop_events script' (bumped d)
  end.

(** A delay that is announced or slept lies between 1 and 60 seconds. *)
Definition delay_in_range (ev : event) : Prop :=
  match ev with
  | EvSleep d | EvWarningFailed d => (1 ≤ d ≤ 60)%Z
  | _ => True
  end.

(** The seconds a trace spends in [asyncio.sleep]. *)
Definition slept (tr : list event) : Z :=
  foldr (λ ev acc, (match ev with EvSleep d => d | _ => 0 end + acc)%Z) 0%Z tr.

End Connection.

(** ** DSLink: base64 padding, the auth parameter and the websocket url *)

Module Link.

(** [new.join] around every character: what [str.replace] does for an
    empty [old]. *)
Fixpoint intersperse (new s : string) : string :=
  match s with
  | EmptyString => new
  | String c s' => new +:+ String c (intersperse new s')
  end.

(** [str.replace] for a non-empty [old], scanning left to right; [skip]
    counts the characters of a match still to be passed over. *)
Fixpoint replace_from (old new : string) (skip : nat) (s : string) : string :=
  match s with
  | EmptyString => EmptyString
  | String c s' =>
      match skip with
      | S k => replace_from old new k s'
      | 0 =>
          if String.prefix old (String c s')
          then new +:+ replace_from old new (String.length old - 1) s'
          else String c (replace_from old new 0 s')
      end
  end.

(** [s.replace(old, new)] *)
Definition replace (old new s : string) : string :=
  match old with
  | EmptyString => intersperse new s
  | String _ _ => replace_from old new 0 s
  end.

(** [s[:-n]] for a positive [n] *)
Definition drop_last (n : nat) (s : string) : string :=
  String.substring 0 (String.length s - n) s.


(** [k] padding characters. *)
Fixpoint equals (k : nat) : string :=
  match k with
  | 0 => EmptyString
  | S k' => String "="%char (equals k')
  end.

(** The loop of [add_padding], run for at most [fuel] passes beyond the
    first test; [None] when the fuel runs out. *)
Fixpoint add_padding_loop (fuel : nat) (s : string) : option string :=
  if (String.length s mod 4 =? 0)%nat then Some s
  else match fuel with
       | 0 => None
       | S fuel' => add_padding_loop fuel' (s +:+ "=")
       end.

Definition add_padding (s : string) : option string :=
  add_padding_loop 3 s.

Section link.
(** hashlib, base64 and urlparse are taken as they come. *)
Context {Url : Type}.
Variable sha256_digest : string → string.       (* hashlib.sha256(_).digest() *)
Variable urlsafe_b64encode : string → string.   (* base64.urlsafe_b64encode(_).decode("utf-8") *)
Variable urlparse : string → Url.
Variable url_port : Url → option Z.             (* url.port *)

(** The attributes of the link and of its configuration that [get_auth]
    and [get_url] read. [server_config] is [None] until a handshake has
    stored the broker's answer; its values are taken to be strings, so
    that [str] leaves them alone. *)
Record link := mkLink {
  broker : string;                             (* self.config.broker *)
  token : option string;                       (* self.config.token *)
  dsid : string;
  needs_auth : bool;
  server_config : option (gmap string string);
  shared_secret : string
}.

Definition get_auth (l : link) : outcome string :=
  match server_config l with
  | None => Raise TypeError
  | Some cfg =>
      match cfg !! "salt" with
      | None => Raise KeyError
      | Some salt =>
          Return (replace "=" ""
                    (urlsafe_b64encode (sha256_digest (salt +:+ shared_secret l))))
      end
  end.

Definition get_url (l : link) : outcome (string * Url * Z) :=
  let websocket_uri :=
    replace "http" "ws" (drop_last 5 (broker l)) +:+ ("/ws?dsId=" +:+ dsid l) in
  match (if needs_auth l
         then match get_auth l with
              | Return auth => Return (websocket_uri +:+ ("&auth=" +:+ auth))
              | Raise e => Raise e
              end
         else Return websocket_uri) with
  | Raise e => Raise e
  | Return websocket_uri =>
      let websocket_uri :=
        match token l with
        | Some t => websocket_uri +:+ ("&token=" +:+ t)
        | None => websocket_uri
        end in
      let url := urlparse websocket_uri in
      let port := match url_port url with None => 80%Z | Some p => p end in
      Return (websocket_uri, url, port)
  end.

End link.
End Link.

(** ** Concrete links, for running the definitions *)

Module Examples.

(** A registry keyed by strings over nodes numbered by [nat], nothing
    subscribed and nothing open. *)
Definition fresh_registry : @Registry.state string _ _ nat :=
  Registry.mkState ∅ ∅ (λ _, Registry.mkNode ∅ []) [].

(** The same with sid1 subscribed to node 1 and a stream rid1 open on it. *)
Definition used_registry : @Registry.state string _ _ nat :=
  Registry.mkState {[ "sid1" := 1 ]} {[ "rid1" := 1 ]}
    (λ n, if decide (n = 1) then Registry.mkNode {[ "sid1" ]} ["rid1"]
          else Registry.mkNode ∅ [])
    [].

(** A stand-in for json and Node: a text is accepted when it opens with a
    brace, and a tree is its own text. *)
Definition toy_loads (text : string) : outcome string :=
  if String.prefix "{" text then Return text else Raise ValueError.

Definition toy_Node (name : string) : string := "{}".

Definition toy_path : string := "nodes.json".

Definition toy_load_nodes : py (@Persistence.state string) string :=
  Persistence.load_nodes toy_loads Return toy_Node toy_path.

Definition toy_save_nodes : py (@Persistence.state string) unit :=
  Persistence.save_nodes Return Return toy_path.

Definition toy_save_timer : py (@Persistence.state string) unit :=
  Persistence.save_timer Return Return toy_path.

Definition toy_reactor_step : py (@Persistence.state string) unit :=
  Persistence.reactor_step Return Return toy_path.

(** A broken primary beside a good backup. *)
Definition disk_good_backup : @Persistence.state string :=
  Persistence.mkState false "{}"
    (<[ "nodes.json" := "garbage" ]> {[ "nodes.json.bak" := "{backup}" ]})
    [] [] [].

(** A broken primary beside a broken backup. *)
Definition disk_bad_backup : @Persistence.state string :=
  Persistence.mkState false "{}"
    (<[ "nodes.json" := "garbage" ]> {[ "nodes.json.bak" := "junk" ]})
    [] [] [].

(** A changed tree over an older primary. *)
Definition dirty_link : @Persistence.state string :=
  Persistence.mkState true "{new}" {[ "nodes.json" := "{old}" ]} [] [] [].

(** The same, about to run the tick queued at start-up, on a disk that
    takes the rename and the open and then refuses the write. *)
Definition full_disk_link : @Persistence.state string :=
  Persistence.mkState true "{new}" {[ "nodes.json" := "{old}" ]}
    [false; false; true] [] [(1%Z, Persistence.CallSaveTimer)].

(** A broker whose handshake raises, one that turns the link down, and
    one that accepts it. *)
Definition broker_raises : Connection.attempt :=
  Connection.mkAttempt (Raise IOError) (Return true).

Definition broker_refuses : Connection.attempt :=
  Connection.mkAttempt (Return false) (Return true).

Definition broker_accepts : Connection.attempt :=
  Connection.mkAttempt (Return true) (Return true).

(** The registry of [used_registry] after node 1 has lost its stream list
    behind the manager's back. *)
Definition stripped_registry : @Registry.state string _ _ nat :=
  Registry.set_node 1 (λ nd, Registry.mkNode (Registry.subscribers nd) [])
    used_registry.

(** A changed tree over an older primary, on a disk that takes the rename
    and then refuses the open. *)
Definition locked_disk_link : @Persistence.state string :=
  Persistence.mkState true "{new}" {[ "nodes.json" := "{old}" ]}
    [false; true] [] [].

(** A changed tree, a healthy disk and the start-up tick queued. *)
Definition ticking_link : @Persistence.state string :=
  Persistence.mkState true "{new}" {[ "nodes.json" := "{old}" ]}
    [] [] [(1%Z, Persistence.CallSaveTimer)].

Definition toy_load_after (st : @Persistence.state string) :=
  toy_load_nodes (Persistence.set_faults [] st).

(** Stand-ins for hashlib, base64 and urlparse: the digest is the text,
    its encoding a fixed padded word, a url is its own text and names no
    port. *)
Definition toy_digest (s : string) : string := s.
Definition toy_b64 (s : string) : string := "c2VjcmV0cw==".
Definition toy_urlparse (s : string) : string := s.
Definition toy_port (url : string) : option Z := None.

Definition toy_get_auth : Link.link → outcome string :=
  Link.get_auth toy_digest toy_b64.

Definition toy_get_url : Link.link → outcome (string * string * Z) :=
  Link.get_url toy_digest toy_b64 toy_urlparse toy_port.

(** The link of a default command line, before any handshake. *)
Definition default_link : Link.link :=
  Link.mkLink "http://localhost:8080/conn" None "link-0" false None "".

(** A link to a secure broker, with a token, that has to authenticate. *)
Definition secure_link : Link.link :=
  Link.mkLink "https://broker.example/conn" (Some "tk") "link-0" true
    (Some {[ "salt" := "0x1" ]}) "secret".

End Examples.

(** * Properties *)

Ltac py_unfold :=
  unfold mbind, mret, py_mbind, py_mret, py_bind, py_ret, try_except,
    modify, gets, raise in *.

(** ** Running computations *)

Lemma bind_Return {S A B} (m : py S A) (f : A → py S B) s a s' :
  m s = (Return a, s') → (m ≫= f) s = f a s'.
Proof. intros Hm. py_unfold. by rewrite Hm. Qed.

Lemma bind_Raise {S A B} (m : py S A) (f : A → py S B) s e s' :
  m s = (Raise e, s') → (m ≫= f) s = (Raise e, s').
Proof. intros Hm. py_unfold. by rewrite Hm. Qed.

Lemma bind_Raise_inv {S A B} (m : py S A) (f : A → py S B) s e s' :
  (m ≫= f) s = (Raise e, s') →
  m s = (Raise e, s') ∨ ∃ a s1, m s = (Return a, s1) ∧ f a s1 = (Raise e, s').
Proof.
  py_unfold. destruct (m s) as [[a|e1] s1]; intros Hrun.
  - right. eauto.
  - left. by injection Hrun as -> ->.
Qed.

Lemma try_except_Return {S A} (body : py S A) c h s a s' :
  body s = (Return a, s') → try_except body c h s = (Return a, s').
Proof. intros Hb. unfold try_except. by rewrite Hb. Qed.

Lemma try_except_caught {S A} (body : py S A) c h s e s' :
  body s = (Raise e, s') → c e = true → try_except body c h s = h e s'.
Proof. intros Hb Hc. unfold try_except. by rewrite Hb, Hc. Qed.

Lemma always_returns_ret {S A} (a : A) : always_returns (mret a : py S A).
Proof. intros s. by exists a. Qed.

Lemma always_returns_modify {S} (f : S → S) : always_returns (modify f).
Proof. intros s. by exists tt. Qed.

Lemma always_returns_gets {S A} (f : S → A) : always_returns (gets f).
Proof. intros s. by exists (f s). Qed.

Lemma always_returns_bind {S A B} (m : py S A) (f : A → py S B) :
  always_returns m → (∀ a, always_returns (f a)) → always_returns (m ≫= f).
Proof.
  intros Hm Hf s. destruct (Hm s) as [a Ha]. unfold returns in *. py_unfold.
  destruct (m s) as [[a'|e] s1]; simpl in Ha; [|done].
  apply Hf.
Qed.

(** A handler that cannot fail, behind a clause that catches everything,
    makes the whole [try] statement return. *)
Lemma always_returns_try {S A} (body : py S A) (h : exn → py S A) :
  (∀ e, always_returns (h e)) → always_returns (try_except body is_Exception h).
Proof.
  intros Hh s. unfold returns, try_except.
  destruct (body s) as [[a|e] s1]; simpl.
  - by exists a.
  - apply Hh.
Qed.

(** ** The registries *)

Section registry_facts.
Context {Id : Type} `{Countable Id} {NodeRef : Type} `{EqDecision NodeRef}.
Variable str : Id → string.
Import Registry.

Local Abbreviation state := (@Registry.state Id _ _ NodeRef).

Implicit Types (st : state) (node n : NodeRef) (sid rid id : Id).

Lemma subscribe_run st node sid :
  subscribe node sid st =
  (Return tt,
   set_node node (λ nd, mkNode ({[sid]} ∪ subscribers nd) (streams nd))
     (set_subscriptions <[sid := node]> st)).
Proof.
  unfold subscribe, getitem, add_subscriber. py_unfold. simpl.
  by rewrite lookup_insert_eq.
Qed.

Lemma unsubscribe_known st n sid :
  subscriptions st !! sid = Some n →
  unsubscribe str sid st =
  (Return tt,
   set_subscriptions (delete sid)
     (set_node n (λ nd, mkNode (subscribers nd ∖ {[sid]}) (streams nd)) st)).
Proof.
  intros Hsid. unfold unsubscribe, getitem, remove_subscriber, delitem.
  py_unfold. simpl. rewrite Hsid. simpl. by rewrite Hsid.
Qed.

Lemma unsubscribe_unknown st sid :
  subscriptions st !! sid = None →
  unsubscribe str sid st =
  (Return tt, add_log (LogRecord "DSlink" DEBUG ("Unknown sid " +:+ str sid)) st).
Proof.
  intros Hsid. unfold unsubscribe, getitem, logger_debug. py_unfold.
  by rewrite Hsid.
Qed.

Lemma open_stream_run st node rid :
  open_stream node rid st =
  (Return tt,
   set_node node (λ nd, mkNode (subscribers nd) (streams nd ++ [rid]))
     (set_strman_streams <[rid := node]> st)).
Proof.
  unfold open_stream, getitem, streams_append. py_unfold. simpl.
  by rewrite lookup_insert_eq.
Qed.

Lemma close_stream_known st n rid l :
  strman_streams st !! rid = Some n →
  list_remove_first rid (streams (heap st n)) = Some l →
  close_stream str rid st =
  (Return tt,
   set_strman_streams (delete rid)
     (set_node n (λ nd, mkNode (subscribers nd) l) st)).
Proof.
  intros Hrid Hl. unfold close_stream, getitem, streams_remove, delitem.
  py_unfold. rewrite Hrid, Hl. simpl. by rewrite Hrid.
Qed.

Lemma close_stream_unknown st rid :
  strman_streams st !! rid = None →
  close_stream str rid st =
  (Return tt, add_log (LogRecord "DSLink" DEBUG ("Unknown rid " +:+ str rid)) st).
Proof.
  intros Hrid. unfold close_stream, getitem, logger_debug. py_unfold.
  by rewrite Hrid.
Qed.

(** A mapped stream whose node has lost the rid makes [list.remove] fail
    with ValueError, which [except KeyError] lets through. *)
Lemma close_stream_value_error st n rid :
  strman_streams st !! rid = Some n →
  list_remove_first rid (streams (heap st n)) = None →
  close_stream str rid st = (Raise ValueError, st).
Proof.
  intros Hrid Hl. unfold close_stream, getitem, streams_remove.
  py_unfold. by rewrite Hrid, Hl.
Qed.

Lemma list_remove_first_snoc_fresh (x : Id) (l : list Id) :
  x ∉ l → list_remove_first x (l ++ [x]) = Some l.
Proof.
  induction l as [|y l IH]; intros Hx; simpl.
  - by rewrite decide_True.
  - apply not_elem_of_cons in Hx as [Hxy Hl].
    rewrite decide_False by done. by rewrite IH.
Qed.

Lemma list_remove_first_snoc (x : Id) (l : list Id) :
  ∃ l', list_remove_first x (l ++ [x]) = Some l' ∧ length l' = length l.
Proof.
  induction l as [|y l (l' & Hl' & Hlen)]; simpl.
  - exists []. by rewrite decide_True.
  - destruct (decide (x = y)) as [->|Hxy].
    + exists (l ++ [y]). split; [done|]. rewrite length_app. simpl. lia.
    + exists (y :: l'). rewrite Hl'. split; [done|]. simpl. by rewrite Hlen.
Qed.

Lemma add_remove_subscriber (X : gset Id) id :
  ({[id]} ∪ X) ∖ {[id]} = X ∖ {[id]}.
Proof.
  apply set_eq. intros x. rewrite !elem_of_difference, elem_of_union. tauto.
Qed.

Lemma add_remove_last_subscriber (X : gset Id) id :
  X ⊆ {[id]} → ({[id]} ∪ X) ∖ {[id]} = ∅.
Proof.
  intros HX. rewrite add_remove_subscriber. apply set_eq. intros x.
  rewrite elem_of_difference. split.
  - intros [Hx Hne]. destruct Hne. by apply HX.
  - intros Hx. by apply not_elem_of_empty in Hx.
Qed.

Lemma subscribe_then_unsubscribe st node sid :
  (subscribe node sid ;; unsubscribe str sid) st =
  (Return tt,
   set_subscriptions (delete sid)
     (set_node node (λ nd, mkNode (subscribers nd ∖ {[sid]}) (streams nd))
        (set_node node (λ nd, mkNode ({[sid]} ∪ subscribers nd) (streams nd))
           (set_subscriptions <[sid := node]> st)))).
Proof.
  py_unfold. rewrite subscribe_run.
  apply unsubscribe_known. simpl. apply lookup_insert_eq.
Qed.

Lemma open_then_close_stream st node rid :
  ∃ l, list_remove_first rid (streams (heap st node) ++ [rid]) = Some l ∧
  (open_stream node rid ;; close_stream str rid) st =
  (Return tt,
   set_strman_streams (delete rid)
     (set_node node (λ nd, mkNode (subscribers nd) l)
        (set_node node (λ nd, mkNode (subscribers nd) (streams nd ++ [rid]))
           (set_strman_streams <[rid := node]> st)))).
Proof.
  destruct (list_remove_first_snoc rid (streams (heap st node))) as (l & Hl & _).
  exists l. split; [done|].
  py_unfold. rewrite open_stream_run.
  apply close_stream_known; simpl.
  - apply lookup_insert_eq.
  - by rewrite fn_lookup_insert.
Qed.

(** C6. Opening an id on a node and closing it again returns normally,
    takes the id out of the node's subscriber set (stream list) and out of
    the mapping: a node without other subscribers (open streams) is left
    with none. Closing an id that is not mapped returns normally as well
    and changes nothing but the log, which gains one DEBUG record. *)
Theorem open_close_lifecycle st node id :
  (∃ st', (subscribe node id ;; unsubscribe str id) st = (Return tt, st') ∧
     subscribers (heap st' node) = subscribers (heap st node) ∖ {[id]} ∧
     (subscribers (heap st node) ⊆ {[id]} → subscribers (heap st' node) = ∅) ∧
     subscriptions st' !! id = None ∧
     log st' = log st) ∧
  (∃ st', (open_stream node id ;; close_stream str id) st = (Return tt, st') ∧
     (id ∉ streams (heap st node) → streams (heap st' node) = streams (heap st node)) ∧
     (streams (heap st node) = [] → streams (heap st' node) = []) ∧
     strman_streams st' !! id = None ∧
     log st' = log st) ∧
  (subscriptions st !! id = None →
     unsubscribe str id st =
     (Return tt, mkState (subscriptions st) (strman_streams st) (heap st)
                   (log st ++ [LogRecord "DSlink" DEBUG ("Unknown sid " +:+ str id)]))) ∧
  (strman_streams st !! id = None →
     close_stream str id st =
     (Return tt, mkState (subscriptions st) (strman_streams st) (heap st)
                   (log st ++ [LogRecord "DSLink" DEBUG ("Unknown rid " +:+ str id)]))).
Proof.
  split; [|split; [|split]].
  - eexists. split; [apply subscribe_then_unsubscribe|]. simpl.
    rewrite !fn_lookup_insert. simpl.
    split; [apply add_remove_subscriber|].
    split; [apply add_remove_last_subscriber|].
    split; [apply lookup_delete_eq|done].
  - destruct (open_then_close_stream st node id) as (l & Hl & Hrun).
    eexists. split; [exact Hrun|]. simpl.
    rewrite !fn_lookup_insert. simpl.
    assert (Hfresh : id ∉ streams (heap st node) → l = streams (heap st node)).
    { intros Hid. rewrite list_remove_first_snoc_fresh in Hl by done. congruence. }
    split; [exact Hfresh|]. split.
    + intros Hnil. rewrite Hfresh; [done|]. rewrite Hnil. apply not_elem_of_nil.
    + split; [apply lookup_delete_eq|done].
  - apply unsubscribe_unknown.
  - apply close_stream_unknown.
Qed.

(** C7. Opening an id that is already mapped, on another node, returns
    normally without logging, makes the mapping point to the new node and
    leaves the node it pointed to exactly as it was, the id still in its
    subscriber set (stream list) if it was there. *)
Theorem reopen_overwrites_mapping st old new id :
  old ≠ new →
  (subscriptions st !! id = Some old →
   ∃ st', subscribe new id st = (Return tt, st') ∧
     subscriptions st' !! id = Some new ∧
     heap st' old = heap st old ∧
     (id ∈ subscribers (heap st old) → id ∈ subscribers (heap st' old)) ∧
     log st' = log st) ∧
  (strman_streams st !! id = Some old →
   ∃ st', open_stream new id st = (Return tt, st') ∧
     strman_streams st' !! id = Some new ∧
     heap st' old = heap st old ∧
     (id ∈ streams (heap st old) → id ∈ streams (heap st' old)) ∧
     log st' = log st).
Proof.
  intros Hne. split; intros _.
  - eexists. split; [apply subscribe_run|]. simpl.
    rewrite lookup_insert_eq, fn_lookup_insert_ne by done. done.
  - eexists. split; [apply open_stream_run|]. simpl.
    rewrite lookup_insert_eq, fn_lookup_insert_ne by done. done.
Qed.

Lemma subscribe_twice_unsubscribe st n1 n2 s :
  (subscribe n1 s ;; (subscribe n2 s ;; unsubscribe str s)) st =
  (Return tt,
   set_subscriptions (delete s)
     (set_node n2 (λ nd, mkNode (subscribers nd ∖ {[s]}) (streams nd))
        (set_node n2 (λ nd, mkNode ({[s]} ∪ subscribers nd) (streams nd))
           (set_subscriptions <[s := n2]>
              (set_node n1 (λ nd, mkNode ({[s]} ∪ subscribers nd) (streams nd))
                 (set_subscriptions <[s := n1]> st)))))).
Proof.
  py_unfold. rewrite !subscribe_run.
  apply unsubscribe_known. simpl. apply lookup_insert_eq.
Qed.

(** C9. With two different nodes, subscribing an id to the first, then to
    the second, then unsubscribing it returns normally; the id is gone
    from the second node and from the mapping, every node but these two is
    as before, and the first node still lists the id. The resulting state
    breaks [subscribers_mapped], and a further unsubscribe of the id only
    logs: the first node keeps it. *)
Theorem duplicate_subscribe_leaks st n1 n2 s :
  n1 ≠ n2 →
  ∃ st', (subscribe n1 s ;; (subscribe n2 s ;; unsubscribe str s)) st = (Return tt, st') ∧
    (s ∉ subscribers (heap st' n2)) ∧
    subscriptions st' !! s = None ∧
    s ∈ subscribers (heap st' n1) ∧
    (∀ n, n ≠ n1 → n ≠ n2 → heap st' n = heap st n) ∧
    ¬ subscribers_mapped st' ∧
    ∃ st'', unsubscribe str s st' = (Return tt, st'') ∧
      heap st'' = heap st' ∧ subscriptions st'' = subscriptions st'.
Proof.
  intros Hne. eexists. split; [apply subscribe_twice_unsubscribe|].
  assert (Hn1 : ∀ f g h (hp : NodeRef → @Node Id _ _),
    <[n2 := f]> (<[n2 := g]> (<[n1 := h]> hp)) n1 = h).
  { intros. rewrite !fn_lookup_insert_ne by done. apply fn_lookup_insert. }
  split; [simpl; rewrite !fn_lookup_insert; simpl;
          rewrite elem_of_difference, elem_of_singleton; tauto|].
  split; [simpl; apply lookup_delete_eq|].
  split; [simpl; rewrite Hn1; simpl;
          apply elem_of_union_l, elem_of_singleton; reflexivity|].
  split; [|split].
  - intros n Hn1' Hn2'. simpl. by rewrite !fn_lookup_insert_ne.
  - intros Hinv. destruct (Hinv n1 s) as [x Hx]; simpl.
    + rewrite Hn1. simpl. apply elem_of_union_l, elem_of_singleton. reflexivity.
    + simpl in Hx. by rewrite lookup_delete_eq in Hx.
  - eexists. split; [apply unsubscribe_unknown; simpl; apply lookup_delete_eq|].
    split; reflexivity.
Qed.

End registry_facts.

(** ** Loading and saving the node tree *)

Lemma string_length_app (a b : string) :
  String.length (a +:+ b) = String.length a + String.length b.
Proof. induction a as [|c a IH]; simpl; [done|]. by rewrite IH. Qed.

Lemma bak_path_ne (p : string) : p +:+ ".bak" ≠ p.
Proof.
  intros Heq. apply (f_equal String.length) in Heq.
  rewrite string_length_app in Heq. simpl in Heq. lia.
Qed.

Section persistence_facts.
Context {Json Tree : Type}.
Variable json_loads : string → outcome Json.
Variable Node_from_json : Json → outcome Tree.
Variable Node_to_json : Tree → outcome Json.
Variable json_dumps : Json → outcome string.
Variable Node_new : string → Tree.
Variable nodes_path : string.
Import Persistence.

Local Abbreviation state := (@Persistence.state Tree).
Local Abbreviation bak := (nodes_path +:+ ".bak").
Local Abbreviation load_nodes :=
  (Persistence.load_nodes json_loads Node_from_json Node_new nodes_path).
Local Abbreviation save_nodes :=
  (Persistence.save_nodes Node_to_json json_dumps nodes_path).
Local Abbreviation save_timer :=
  (Persistence.save_timer Node_to_json json_dumps nodes_path).
Local Abbreviation reactor_step :=
  (Persistence.reactor_step Node_to_json json_dumps nodes_path).
Local Abbreviation deserialize := (Persistence.deserialize json_loads Node_from_json).
Local Abbreviation serialize := (Persistence.serialize Node_to_json json_dumps).
Local Abbreviation read_events := (Persistence.read_events json_loads).

Implicit Types (st : state) (p text : string).

(** *** System calls when the oracle announces no fault *)

Lemma syscall_quiet st e : faults st = [] → syscall e st = (Return tt, st).
Proof. intros Hf. unfold syscall. by rewrite Hf. Qed.

Lemma os_remove_quiet st p text :
  faults st = [] → files st !! p = Some text →
  os_remove p st = (Return tt, emit (EvRemove p) (set_files (delete p) st)).
Proof.
  intros Hf Hp. unfold os_remove.
  rewrite (bind_Return _ _ _ _ _ (syscall_quiet _ _ Hf)).
  unfold unlink. by rewrite Hp.
Qed.

Lemma os_rename_quiet st src dst text :
  faults st = [] → files st !! src = Some text →
  os_rename src dst st =
  (Return tt, emit (EvRename src dst)
                (set_files (λ m, <[dst := text]> (delete src m)) st)).
Proof.
  intros Hf Hp. unfold os_rename.
  rewrite (bind_Return _ _ _ _ _ (syscall_quiet _ _ Hf)).
  unfold move. by rewrite Hp.
Qed.

(** The block [open(p, "r"); json.load; close; Node.from_json], which
    [load_nodes] runs on the primary file and again after the restore. *)
Lemma read_block_quiet st p text :
  faults st = [] → files st !! p = Some text →
  (nodes_file ← open_ p R ;
   obj ← json_load json_loads nodes_file ;
   file_close nodes_file ;;
   lift (Node_from_json obj)) st =
  (deserialize text,
   mkState (nodes_changed st) (super_root st) (files st) [] 
     (trace st ++ read_events p text) (delayed_calls st)).
Proof.
  intros Hf Hp. destruct st as [ch root fs fl tr dc]. simpl in *. subst fl.
  unfold open_, json_load, file_read, file_close, syscall, open_file, read_all,
    lift, Persistence.deserialize, Persistence.read_events.
  py_unfold. simpl. rewrite Hp. simpl. rewrite Hp. simpl.
  destruct (json_loads text) as [obj|e]; simpl.
  - unfold emit; simpl. by rewrite <- !app_assoc.
  - unfold emit; simpl. by rewrite <- !app_assoc.
Qed.

Lemma exists_true st p text :
  files st !! p = Some text → os_path_exists p st = (Return true, st).
Proof. intros Hp. unfold os_path_exists, gets. by rewrite Hp. Qed.

Lemma exists_false st p :
  files st !! p = None → os_path_exists p st = (Return false, st).
Proof. intros Hp. unfold os_path_exists, gets. by rewrite Hp. Qed.

Lemma exists_bind {B} st p (k : bool → py state B) :
  (os_path_exists p ≫= k) st = k (bool_decide (is_Some (files st !! p))) st.
Proof. reflexivity. Qed.

Lemma load_nodes_missing st :
  files st !! nodes_path = None → load_nodes st = (Return (Node_new ""), st).
Proof.
  intros Hp. unfold Persistence.load_nodes.
  by rewrite (bind_Return _ _ _ _ _ (exists_false _ _ Hp)).
Qed.

Lemma load_nodes_valid st text t :
  faults st = [] → files st !! nodes_path = Some text →
  deserialize text = Return t →
  load_nodes st =
  (Return t,
   mkState (nodes_changed st) (super_root st) (files st) []
     (trace st ++ read_events nodes_path text) (delayed_calls st)).
Proof.
  intros Hf Hp Hdes. unfold Persistence.load_nodes.
  rewrite (bind_Return _ _ _ _ _ (exists_true _ _ _ Hp)).
  apply try_except_Return. rewrite <- Hdes. by apply read_block_quiet.
Qed.

Lemma load_nodes_no_backup st text e :
  faults st = [] → files st !! nodes_path = Some text →
  deserialize text = Raise e →
  files st !! bak = None →
  load_nodes st =
  (Return (Node_new ""),
   mkState (nodes_changed st) (super_root st) (files st) []
     (trace st ++ read_events nodes_path text ++
      [EvPrint e; EvLog ERROR "Unable to load nodes data";
       EvLog WARNING "Backup nodes data doesn't exist, using default"])
     (delayed_calls st)).
Proof.
  intros Hf Hp Hdes Hbak. unfold Persistence.load_nodes.
  rewrite (bind_Return _ _ _ _ _ (exists_true _ _ _ Hp)).
  erewrite try_except_caught; [| rewrite <- Hdes; by apply read_block_quiet | done].
  unfold print, logger_error, logger_warn, get_default_nodes, get_root_node,
    os_path_exists.
  py_unfold. simpl. rewrite Hbak. simpl. unfold emit. simpl.
  by rewrite <- !app_assoc.
Qed.

Lemma load_nodes_restore st text e btext :
  faults st = [] → files st !! nodes_path = Some text →
  deserialize text = Raise e →
  files st !! bak = Some btext →
  load_nodes st =
  (Return (match deserialize btext with
           | Return t => t
           | Raise _ => Node_new ""
           end),
   mkState (nodes_changed st) (super_root st)
     (<[nodes_path := btext]> (delete bak (delete nodes_path (files st)))) []
     (trace st ++ read_events nodes_path text ++
      [EvPrint e; EvLog ERROR "Unable to load nodes data";
       EvLog WARNING "Restoring backup nodes";
       EvRemove nodes_path; EvRename bak nodes_path] ++
      read_events nodes_path btext ++
      match deserialize btext with
      | Return _ => []
      | Raise _ => [EvLog ERROR "Unable to restore nodes, using default"]
      end)
     (delayed_calls st)).
Proof.
  intros Hf Hp Hdes Hbak. unfold Persistence.load_nodes.
  rewrite (bind_Return _ _ _ _ _ (exists_true _ _ _ Hp)).
  erewrite try_except_caught; [| rewrite <- Hdes; by apply read_block_quiet | done].
  set (st1 := mkState _ _ _ _ (trace st ++ read_events nodes_path text) _).
  assert (Hbak1 : files st1 !! bak = Some btext) by done.
  unfold print, logger_error.
  rewrite (bind_Return _ _ _ tt (emit (EvPrint e) st1)) by done.
  rewrite (bind_Return _ _ _ tt (emit (EvLog ERROR "Unable to load nodes data")
                                   (emit (EvPrint e) st1))) by done.
  erewrite bind_Return; [| by apply (exists_true _ _ btext)].
  set (st2 := emit _ (emit _ st1)).
  set (st3 := emit (EvLog WARNING "Restoring backup nodes") st2).
  set (st4 := emit (EvRemove nodes_path) (set_files (delete nodes_path) st3)).
  set (st5 := emit (EvRename bak nodes_path)
                (set_files (λ m, <[nodes_path := btext]> (delete bak m)) st4)).
  assert (Hblock :
    (logger_warn "Restoring backup nodes" ;;
     os_remove nodes_path ;;
     os_rename bak nodes_path ;;
     nodes_file ← open_ nodes_path R ;
     obj ← json_load json_loads nodes_file ;
     file_close nodes_file ;;
     lift (Node_from_json obj)) st2 =
    (deserialize btext,
     mkState (nodes_changed st5) (super_root st5) (files st5) []
       (trace st5 ++ read_events nodes_path btext) (delayed_calls st5))).
  { unfold logger_warn.
    rewrite (bind_Return _ _ _ tt st3) by done.
    rewrite (bind_Return _ _ _ tt st4) by (by apply (os_remove_quiet _ _ text)).
    rewrite (bind_Return _ _ _ tt st5).
    - apply read_block_quiet; [done|]. simpl. apply lookup_insert_eq.
    - apply os_rename_quiet; [done|]. simpl.
      rewrite lookup_delete_ne by (apply not_eq_sym, bak_path_ne). done. }
  unfold try_except at 1. rewrite Hblock. clear Hblock.
  destruct (deserialize btext) as [t|e']; simpl.
  - rewrite app_nil_r. by rewrite <- !app_assoc.
  - unfold logger_error, get_default_nodes, get_root_node. py_unfold. simpl.
    unfold emit. simpl. by rewrite <- !app_assoc.
Qed.

Lemma load_nodes_always_returns : always_returns load_nodes.
Proof.
  unfold Persistence.load_nodes.
  apply always_returns_bind; [apply always_returns_gets|].
  intros [|]; [|apply always_returns_ret].
  apply always_returns_try. intros e.
  do 2 (apply always_returns_bind; [apply always_returns_modify|]; intros _).
  apply always_returns_bind; [apply always_returns_gets|].
  intros [|].
  - apply always_returns_try. intros _.
    apply always_returns_bind; [apply always_returns_modify|]; intros _.
    apply always_returns_ret.
  - apply always_returns_bind; [apply always_returns_modify|]; intros _.
    apply always_returns_ret.
Qed.

Lemma read_events_touch_nothing p text :
  List.filter touches_disk (read_events p text) = [].
Proof. unfold Persistence.read_events. by destruct (json_loads text). Qed.

Lemma read_events_one_read p text :
  List.filter is_read (read_events p text) = [EvRead p].
Proof. unfold Persistence.read_events. by destruct (json_loads text). Qed.

(** C1. [load_nodes] returns a tree from every state, whatever the disk
    holds and whichever system calls fail. Without a primary file it
    returns the default tree, [Node("", None)], and touches nothing. When
    no system call fails: a primary file that deserializes is returned as
    deserialized, the disk untouched; a primary that does not, without a
    backup, gives the default tree, the disk untouched; with a backup, the
    primary is removed, the backup renamed onto it and read once, and the
    result is what the backup deserializes to or, if it does not, the
    default tree. *)
Theorem load_nodes_recovery_chain st :
  (∃ t st', load_nodes st = (Return t, st')) ∧
  (files st !! nodes_path = None → load_nodes st = (Return (Node_new ""), st)) ∧
  (faults st = [] → ∀ text, files st !! nodes_path = Some text →
     (∀ t, deserialize text = Return t →
        ∃ st', load_nodes st = (Return t, st') ∧ files st' = files st) ∧
     (∀ e, deserialize text = Raise e →
        (files st !! bak = None →
           ∃ st', load_nodes st = (Return (Node_new ""), st') ∧
             files st' = files st) ∧
        (∀ btext, files st !! bak = Some btext →
           ∃ st' evs,
             load_nodes st =
               (Return (match deserialize btext with
                        | Return t => t
                        | Raise _ => Node_new ""
                        end), st') ∧
             files st' !! nodes_path = Some btext ∧
             files st' !! bak = None ∧
             trace st' = trace st ++ evs ∧
             List.filter touches_disk evs =
               [EvRemove nodes_path; EvRename bak nodes_path] ∧
             List.filter is_read evs = [EvRead nodes_path; EvRead nodes_path]))).
Proof.
  split; [|split].
  - destruct (load_nodes_always_returns st) as [t Ht].
    destruct (load_nodes st) as [o st'] eqn:Hrun. simpl in Ht. subst o. eauto.
  - apply load_nodes_missing.
  - intros Hf text Hp. split.
    + intros t Hdes. eexists. split; [by apply load_nodes_valid|done].
    + intros e Hdes. split.
      * intros Hbak. eexists. split; [by apply load_nodes_no_backup|done].
      * intros btext Hbak. eexists _, _.
        split; [by apply load_nodes_restore|]. cbn [files trace].
        split; [apply lookup_insert_eq|].
        split; [rewrite lookup_insert_ne by (apply not_eq_sym, bak_path_ne);
                apply lookup_delete_eq|].
        split; [reflexivity|].
        rewrite !List.filter_app, !read_events_touch_nothing,
          !read_events_one_read. simpl.
        by destruct (deserialize btext).
Qed.

(** C10. When no system call fails and neither the primary nor the backup
    deserializes, [load_nodes] returns the default tree and leaves the
    disk changed: the primary path holds what the backup held, the backup
    path is empty, every other path is as before; the only calls that
    changed the disk are the removal of the primary and the rename of the
    backup onto it. *)
Theorem failed_restore_changes_disk st text e btext e' :
  faults st = [] →
  files st !! nodes_path = Some text → deserialize text = Raise e →
  files st !! bak = Some btext → deserialize btext = Raise e' →
  ∃ st' evs,
    load_nodes st = (Return (Node_new ""), st') ∧
    files st' !! nodes_path = Some btext ∧
    files st' !! bak = None ∧
    (∀ p, p ≠ nodes_path → p ≠ bak → files st' !! p = files st !! p) ∧
    files st' ≠ files st ∧
    trace st' = trace st ++ evs ∧
    List.filter touches_disk evs = [EvRemove nodes_path; EvRename bak nodes_path].
Proof.
  intros Hf Hp Hdes Hbak Hdes'.
  pose proof (load_nodes_restore st text e btext Hf Hp Hdes Hbak) as Hrun.
  rewrite Hdes' in Hrun. eexists _, _. split; [exact Hrun|]. cbn [files trace].
  assert (Hne : nodes_path ≠ bak) by apply not_eq_sym, bak_path_ne.
  split; [apply lookup_insert_eq|].
  assert (Hgone : (<[nodes_path:=btext]> (delete bak (delete nodes_path (files st))))
                    !! bak = None).
  { rewrite lookup_insert_ne by done. apply lookup_delete_eq. }
  split; [exact Hgone|].
  split; [|split; [|split]].
  - intros p Hp1 Hp2. by rewrite lookup_insert_ne, !lookup_delete_ne.
  - intros Heq. rewrite Heq in Hgone. congruence.
  - reflexivity.
  - rewrite !List.filter_app, !read_events_touch_nothing. done.
Qed.

(** *** Saving *)

Lemma save_nodes_clean st :
  nodes_changed st = false → save_nodes st = (Return tt, st).
Proof.
  intros Hc. unfold Persistence.save_nodes.
  rewrite (bind_Return _ _ _ false st) by (unfold gets; by rewrite Hc). done.
Qed.

(** From [open(path, "w")] to the end of [save_nodes]. *)
Lemma write_block_quiet st text :
  faults st = [] → serialize (super_root st) = Return text →
  (nodes_file ← open_ nodes_path W ;
   root ← gets super_root ;
   obj ← lift (Node_to_json root) ;
   text ← lift (json_dumps obj) ;
   file_write nodes_file text ;;
   file_flush nodes_file ;;
   os_fsync nodes_file ;;
   file_close nodes_file ;;
   modify (set_nodes_changed false)) st =
  (Return tt,
   mkState false (super_root st) (<[nodes_path := text]> (files st)) []
     (trace st ++ [EvOpen nodes_path W; EvWrite nodes_path text;
                   EvFlush nodes_path; EvFsync nodes_path; EvClose nodes_path])
     (delayed_calls st)).
Proof.
  intros Hf Hser. destruct st as [ch root fs fl tr dc]. simpl in *. subst fl.
  unfold Persistence.serialize in Hser.
  unfold open_, file_write, file_flush, os_fsync, file_close, syscall, open_file,
    lift.
  py_unfold. simpl.
  destruct (Node_to_json root) as [obj|]; [|done]. rewrite Hser. simpl.
  unfold emit, set_files, set_nodes_changed. simpl.
  rewrite lookup_insert_eq. simpl. rewrite insert_insert_eq.
  by rewrite <- !app_assoc.
Qed.

Lemma save_nodes_dirty st text :
  faults st = [] → nodes_changed st = true →
  serialize (super_root st) = Return text →
  save_nodes st =
  (Return tt,
   mkState false (super_root st)
     (<[nodes_path := text]>
        match files st !! nodes_path with
        | Some old => <[bak := old]> (delete nodes_path (delete bak (files st)))
        | None => delete bak (files st)
        end) []
     (trace st ++
      match files st !! bak with Some _ => [EvRemove bak] | None => [] end ++
      match files st !! nodes_path with
      | Some _ => [EvRename nodes_path bak]
      | None => []
      end ++
      [EvOpen nodes_path W; EvWrite nodes_path text;
       EvFlush nodes_path; EvFsync nodes_path; EvClose nodes_path])
     (delayed_calls st)).
Proof.
  intros Hf Hc Hser. unfold Persistence.save_nodes.
  rewrite (bind_Return _ _ _ true st) by (unfold gets; by rewrite Hc).
  assert (Hne : nodes_path ≠ bak) by apply not_eq_sym, bak_path_ne.
  (* the backup is removed, if there is one *)
  assert (Hstep1 : ∃ st1,
    (if bool_decide (is_Some (files st !! bak)) then os_remove bak else mret tt) st
      = (Return tt, st1) ∧
    faults st1 = [] ∧ super_root st1 = super_root st ∧
    delayed_calls st1 = delayed_calls st ∧
    files st1 = delete bak (files st) ∧
    trace st1 = trace st ++
      match files st !! bak with Some _ => [EvRemove bak] | None => [] end).
  { destruct (files st !! bak) as [b|] eqn:Hb.
    - eexists. split; [by apply (os_remove_quiet _ _ b)|]. done.
    - exists st. split; [done|].
      rewrite delete_id by done. by rewrite app_nil_r. }
  destruct Hstep1 as (st1 & Hrun1 & Hf1 & Hroot1 & Hdc1 & Hfiles1 & Htr1).
  rewrite exists_bind, (bind_Return _ _ _ _ _ Hrun1). clear Hrun1.
  (* the primary becomes the backup, if there is one *)
  assert (Hp1 : files st1 !! nodes_path = files st !! nodes_path).
  { rewrite Hfiles1. by apply lookup_delete_ne. }
  assert (Hstep2 : ∃ st2,
    (if bool_decide (is_Some (files st1 !! nodes_path))
     then os_rename nodes_path bak else mret tt) st1 = (Return tt, st2) ∧
    faults st2 = [] ∧ super_root st2 = super_root st ∧
    delayed_calls st2 = delayed_calls st ∧
    files st2 =
      match files st !! nodes_path with
      | Some old => <[bak := old]> (delete nodes_path (delete bak (files st)))
      | None => delete bak (files st)
      end ∧
    trace st2 = trace st1 ++
      match files st !! nodes_path with
      | Some _ => [EvRename nodes_path bak]
      | None => []
      end).
  { rewrite Hp1. destruct (files st !! nodes_path) as [old|] eqn:Hp.
    - eexists. split; [by apply os_rename_quiet|].
      simpl. by rewrite Hfiles1.
    - exists st1. split; [done|]. by rewrite app_nil_r. }
  destruct Hstep2 as (st2 & Hrun2 & Hf2 & Hroot2 & Hdc2 & Hfiles2 & Htr2).
  rewrite exists_bind, (bind_Return _ _ _ _ _ Hrun2). clear Hrun2.
  rewrite (write_block_quiet st2 text) by (by rewrite ?Hroot2).
  rewrite Hroot2, Hdc2, Hfiles2, Htr2, Htr1. by rewrite <- !app_assoc.
Qed.

(** C4. A dirty save, when no system call fails and the tree serializes,
    does this and nothing else, in this order: remove the backup if there
    is one, rename the primary to the backup if there is one, open the
    primary for writing, write the text, flush, fsync, close; then it
    clears the flag. The primary holds the new text and the backup what
    the primary held. So after a second dirty save the backup holds what
    the primary held right after the first. *)
Theorem save_nodes_rotation st text :
  faults st = [] → nodes_changed st = true →
  serialize (super_root st) = Return text →
  ∃ st1,
    save_nodes st = (Return tt, st1) ∧
    trace st1 =
      trace st ++
      match files st !! bak with Some _ => [EvRemove bak] | None => [] end ++
      match files st !! nodes_path with
      | Some _ => [EvRename nodes_path bak]
      | None => []
      end ++
      [EvOpen nodes_path W; EvWrite nodes_path text;
       EvFlush nodes_path; EvFsync nodes_path; EvClose nodes_path] ∧
    nodes_changed st1 = false ∧
    files st1 !! nodes_path = Some text ∧
    files st1 !! bak = files st !! nodes_path ∧
    ∀ tree2 text2,
      serialize tree2 = Return text2 →
      ∃ st2,
        save_nodes (set_nodes_changed true (set_super_root tree2 st1))
          = (Return tt, st2) ∧
        files st2 !! bak = files st1 !! nodes_path ∧
        files st2 !! nodes_path = Some text2.
Proof.
  intros Hf Hc Hser.
  assert (Hne : nodes_path ≠ bak) by apply not_eq_sym, bak_path_ne.
  assert (Hrot : ∀ (fs : gmap string string) new,
    <[nodes_path := new]>
      match fs !! nodes_path with
      | Some old => <[bak := old]> (delete nodes_path (delete bak fs))
      | None => delete bak fs
      end !! bak = fs !! nodes_path).
  { intros fs new. rewrite lookup_insert_ne by done.
    destruct (fs !! nodes_path) eqn:Hp.
    - apply lookup_insert_eq.
    - apply lookup_delete_eq. }
  eexists. split; [by apply save_nodes_dirty|]. cbn [trace nodes_changed files].
  split; [done|]. split; [done|]. split; [apply lookup_insert_eq|].
  split; [apply Hrot|].
  intros tree2 text2 Hser2. eexists.
  split; [by apply save_nodes_dirty|]. cbn [files set_nodes_changed set_super_root].
  split; [apply Hrot|apply lookup_insert_eq].
Qed.

(** C5. A save with the flag clear returns at once and changes nothing.
    So of two saves in a row, the first on a dirty tree with no failing
    system call, the first writes once and clears the flag and the second
    leaves the state, the disk and the trace included, as the first left
    it. *)
Theorem save_nodes_twice_one_write st :
  (nodes_changed st = false → save_nodes st = (Return tt, st)) ∧
  (∀ text,
     faults st = [] → nodes_changed st = true →
     serialize (super_root st) = Return text →
     ∃ st1 evs,
       save_nodes st = (Return tt, st1) ∧
       trace st1 = trace st ++ evs ∧
       List.filter is_write evs = [EvWrite nodes_path text] ∧
       nodes_changed st1 = false ∧
       save_nodes st1 = (Return tt, st1) ∧
       (save_nodes ;; save_nodes) st = (Return tt, st1)).
Proof.
  split; [apply save_nodes_clean|].
  intros text Hf Hc Hser.
  pose proof (save_nodes_dirty st text Hf Hc Hser) as Hrun.
  eexists _, _. split; [exact Hrun|]. cbn [trace nodes_changed].
  split; [reflexivity|].
  split; [by destruct (files st !! bak), (files st !! nodes_path)|].
  split; [done|].
  split; [by apply save_nodes_clean|].
  rewrite (bind_Return _ _ _ _ _ Hrun). by apply save_nodes_clean.
Qed.

(** *** A save that fails *)

Local Abbreviation keeps := (@Persistence.keeps_flag_and_queue Tree _).
Local Abbreviation dirty_raise := (@Persistence.raises_dirty Tree _).

Lemma keeps_ret {A} (a : A) : keeps (mret a).
Proof. intros st o st' [= <- <-]. done. Qed.

Lemma keeps_gets {A} (f : state → A) : keeps (gets f).
Proof. intros st o st' [= <- <-]. done. Qed.

Lemma keeps_lift {A} (o : outcome A) : keeps (lift o).
Proof. intros st o' st' [= <- <-]. done. Qed.

Lemma keeps_emit ev : keeps (modify (emit ev)).
Proof. intros st o st' [= <- <-]. done. Qed.

Lemma keeps_syscall e : keeps (syscall e).
Proof.
  intros st o st'. unfold syscall.
  destruct (faults st) as [|[|] l]; intros [= <- <-]; done.
Qed.

Lemma keeps_bind {A B} (m : py state A) (f : A → py state B) :
  keeps m → (∀ a, keeps (f a)) →
  keeps (m ≫= f).
Proof.
  intros Hm Hf st o st'. py_unfold.
  destruct (m st) as [[a|e] s1] eqn:Hrun; intros Hk.
  - destruct (Hm _ _ _ Hrun) as [Hc1 Hq1].
    destruct (Hf a s1 o st' Hk) as [Hc2 Hq2]. split; congruence.
  - injection Hk as <- <-. by apply (Hm _ _ _ Hrun).
Qed.

Lemma keeps_os_remove p : keeps (os_remove p).
Proof.
  apply keeps_bind; [apply keeps_syscall|]. intros _ st o st'. unfold unlink.
  destruct (files st !! p); intros [= <- <-]; done.
Qed.

Lemma keeps_os_rename src dst : keeps (os_rename src dst).
Proof.
  apply keeps_bind; [apply keeps_syscall|]. intros _ st o st'. unfold move.
  destruct (files st !! src); intros [= <- <-]; done.
Qed.

Lemma keeps_open p m : keeps (open_ p m).
Proof.
  apply keeps_bind; [apply keeps_syscall|]. intros _ st o st'. unfold open_file.
  destruct m; [destruct (files st !! p)|]; intros [= <- <-]; done.
Qed.

Lemma keeps_file_write f data : keeps (file_write f data).
Proof.
  apply keeps_bind; [apply keeps_syscall|]. intros _ st o st' [= <- <-]. done.
Qed.

Lemma keeps_raises_dirty {A} (m : py state A) :
  keeps m → dirty_raise m.
Proof.
  intros Hm st o st' Hc Hrun. destruct (Hm _ _ _ Hrun) as [Hc' Hq].
  split; [done|]. intros _ _. congruence.
Qed.

Lemma raises_dirty_bind {A B} (m : py state A) (f : A → py state B) :
  keeps m → (∀ a, dirty_raise (f a)) → dirty_raise (m ≫= f).
Proof.
  intros Hm Hf st o st' Hc. py_unfold.
  destruct (m st) as [[a|e] s1] eqn:Hrun; intros Hk.
  - destruct (Hm _ _ _ Hrun) as [Hc1 Hq1].
    destruct (Hf a s1 o st') as [Hq Hraise]; [congruence|done|].
    split; [congruence|done].
  - injection Hk as <- <-. destruct (Hm _ _ _ Hrun) as [Hc1 Hq1].
    split; [done|]. intros _ _. congruence.
Qed.

Lemma raises_dirty_clear : dirty_raise (modify (set_nodes_changed false)).
Proof. intros st o st' _ [= <- <-]. split; [done|]. intros e. done. Qed.

Lemma save_nodes_raises_dirty : dirty_raise save_nodes.
Proof.
  unfold Persistence.save_nodes.
  apply raises_dirty_bind; [apply keeps_gets|].
  intros [|]; [|apply keeps_raises_dirty, keeps_ret].
  apply raises_dirty_bind; [apply keeps_gets|]. intros ex_bak.
  apply raises_dirty_bind;
    [destruct ex_bak; [apply keeps_os_remove|apply keeps_ret]|]. intros _.
  apply raises_dirty_bind; [apply keeps_gets|]. intros ex.
  apply raises_dirty_bind;
    [destruct ex; [apply keeps_os_rename|apply keeps_ret]|]. intros _.
  apply raises_dirty_bind; [apply keeps_open|]. intros nodes_file.
  apply raises_dirty_bind; [apply keeps_gets|]. intros root.
  apply raises_dirty_bind; [apply keeps_lift|]. intros obj.
  apply raises_dirty_bind; [apply keeps_lift|]. intros text.
  apply raises_dirty_bind; [apply keeps_file_write|]. intros _.
  do 3 (apply raises_dirty_bind;
          [apply keeps_bind; [apply keeps_syscall|intros _; apply keeps_emit]|];
        intros _).
  apply raises_dirty_clear.
Qed.

(** C8. When [save_nodes] raises, the dirty flag is still set, but the
    exception leaves [save_timer] before the call that queues the next
    tick: the reactor's queue is as [save_timer] found it. The reactor
    logs the exception and goes on, and if the failed tick was the only
    queued call the queue is now empty, so the next turn of the reactor
    does nothing: the save is not tried again. *)
Theorem failed_save_stops_timer st e st' :
  save_nodes st = (Raise e, st') →
  nodes_changed st' = true ∧
  save_timer st = (Raise e, st') ∧
  delayed_calls st' = delayed_calls st ∧
  ∀ st0 secs,
    delayed_calls st0 = [(secs, CallSaveTimer)] →
    st = set_delayed_calls (λ _, []) st0 →
    ∃ st'',
      reactor_step st0 = (Return tt, st'') ∧
      nodes_changed st'' = true ∧
      delayed_calls st'' = [] ∧
      reactor_step st'' = (Return tt, st'').
Proof.
  intros Hrun.
  assert (Hc : nodes_changed st = true).
  { destruct (nodes_changed st) eqn:Hc; [done|].
    rewrite save_nodes_clean in Hrun by done. done. }
  destruct (save_nodes_raises_dirty st _ st' Hc Hrun) as [Hq Hflag].
  assert (Htimer : save_timer st = (Raise e, st')).
  { unfold Persistence.save_timer. by apply bind_Raise. }
  split; [by apply (Hflag e)|]. split; [exact Htimer|]. split; [exact Hq|].
  intros st0 secs Hq0 ->.
  exists (emit (EvLog ERROR "Unhandled Error") st').
  assert (Hempty : delayed_calls (emit (EvLog ERROR "Unhandled Error") st') = []).
  { simpl. by rewrite Hq. }
  split; [|split; [by apply (Hflag e)|split; [exact Hempty|]]].
  - unfold Persistence.reactor_step. rewrite Hq0.
    by rewrite (try_except_caught _ _ _ _ e st').
  - unfold Persistence.reactor_step. by rewrite Hempty.
Qed.

(** A save that returns is followed by the queueing of the next tick,
    five seconds on. *)
Lemma save_timer_reschedules st st' :
  save_nodes st = (Return tt, st') →
  save_timer st =
  (Return tt, set_delayed_calls (λ q, q ++ [(5%Z, CallSaveTimer)]) st').
Proof.
  intros Hrun. unfold Persistence.save_timer.
  by rewrite (bind_Return _ _ _ _ _ Hrun).
Qed.

End persistence_facts.

(** ** The connect loop *)

Section connection_facts.
Import Connection.

Implicit Types (a : attempt) (st : state) (script : list attempt).

Lemma failed_cases a : failed a ↔ returns_failure a ∨ ∃ e, raises a e.
Proof.
  unfold failed, returns_failure, raises.
  destruct (hs_res a) as [[|]|e1], (ws_res a) as [[|]|e2];
    (split;
     [ intros Hf; first [ exfalso; by apply Hf | left; by auto | right; by eauto ]
     | intros [[Hx|[Hx Hy]]|[e [Hx|[Hx Hy]]]]; done ]).
Qed.

Lemma iteration_connected a st :
  hs_res a = Return true → ws_res a = Return true →
  iteration a st =
  (Return true,
   mkState (bumped (delay st)) true
     (trace st ++ [EvHandshake; EvWsConnect; EvCreatePingTask])).
Proof.
  intros Hhs Hws. destruct st as [d pt tr].
  unfold iteration, run_handshake, websocket_connect, create_ping_task, answer,
    bumped.
  py_unfold. simpl. rewrite Hhs. simpl. rewrite Hws. simpl.
  destruct (d <? 60)%Z; unfold emit, set_ping_task; simpl;
    by rewrite <- !app_assoc.
Qed.

Lemma iteration_returns_failure a st :
  returns_failure a →
  iteration a st =
  (Return false,
   mkState (bumped (delay st)) (ping_task st)
     (trace st ++ attempt_calls a ++
      [EvWarningFailed (bumped (delay st)); EvSleep (bumped (delay st))])).
Proof.
  intros Hfail. destruct st as [d pt tr].
  unfold iteration, run_handshake, websocket_connect, logger_warning_failed,
    asyncio_sleep_delay, answer, bumped, attempt_calls.
  py_unfold. simpl.
  destruct Hfail as [Hhs|[Hhs Hws]]; rewrite Hhs; simpl; [|rewrite Hws; simpl];
    destruct (d <? 60)%Z; unfold emit; simpl; by rewrite <- !app_assoc.
Qed.

Lemma iteration_raises a e st :
  raises a e →
  iteration a st =
  (Return false,
   mkState (bumped (delay st)) (ping_task st)
     (trace st ++ attempt_calls a ++ [EvErrorException e])).
Proof.
  intros Hfail. destruct st as [d pt tr].
  unfold iteration, run_handshake, websocket_connect, logger_error_exception,
    answer, bumped, attempt_calls.
  py_unfold. simpl.
  destruct Hfail as [Hhs|[Hhs Hws]]; rewrite Hhs; simpl; [|rewrite Hws; simpl];
    destruct (d <? 60)%Z; unfold emit; simpl; by rewrite <- !app_assoc.
Qed.

Lemma attempt_calls_no_sleep a : List.filter is_sleep (attempt_calls a) = [].
Proof. unfold attempt_calls. by destruct (hs_res a) as [[|]|]. Qed.

Lemma iteration_failed a st :
  failed a →
  ∃ evs, iteration a st =
    (Return false, mkState (bumped (delay st)) (ping_task st) (trace st ++ evs)).
Proof.
  intros [Hret|[e Hraise]]%failed_cases; eexists.
  - by apply iteration_returns_failure.
  - by apply iteration_raises.
Qed.

Lemma while_true_app script1 script2 st :
  while_true (script1 ++ script2) st =
  match while_true script1 st with
  | (Retrying, st') => while_true script2 st'
  | r => r
  end.
Proof.
  revert st. induction script1 as [|a script1 IH]; intros st; simpl; [done|].
  destruct (iteration a st) as [[[|]|e] st']; [done| |done]. apply IH.
Qed.

Lemma while_true_failed script st :
  Forall failed script →
  ∃ evs, while_true script st =
    (Retrying,
     mkState (Nat.iter (length script) bumped (delay st)) (ping_task st)
       (trace st ++ evs)).
Proof.
  intros Hall. revert st. induction Hall as [|a script Ha _ IH]; intros st.
  - exists []. simpl. rewrite app_nil_r. by destruct st.
  - destruct (iteration_failed a st Ha) as [evs1 Hrun]. simpl. rewrite Hrun.
    destruct (IH (mkState (bumped (delay st)) (ping_task st) (trace st ++ evs1)))
      as [evs2 Hrest].
    exists (evs1 ++ evs2). rewrite Hrest. simpl.
    rewrite <- app_assoc. do 3 f_equal.
    clear. induction (length script) as [|n IHn]; simpl; [done|].
    by rewrite IHn.
Qed.

Lemma iter_bumped_from_zero (n : nat) :
  Nat.iter n bumped 0%Z = Z.min (Z.of_nat n) 60.
Proof.
  induction n as [|n IH]; [done|].
  rewrite Nat.iter_succ, IH. unfold bumped.
  destruct (Z.ltb_spec (Z.min (Z.of_nat n) 60) 60); lia.
Qed.

Lemma iteration_opens_with_handshake a st :
  ∃ r st' evs,
    iteration a st = (Return r, st') ∧ trace st' = trace st ++ EvHandshake :: evs.
Proof.
  destruct (hs_res a) as [[|]|e1] eqn:Hhs; [destruct (ws_res a) as [[|]|e2] eqn:Hws|..].
  - eexists _, _, _. split; [by apply iteration_connected|]. done.
  - eexists _, _, _. split; [apply iteration_returns_failure; right; done|].
    simpl. unfold attempt_calls. by rewrite Hhs.
  - eexists _, _, _. split; [apply (iteration_raises _ e2); right; done|].
    simpl. unfold attempt_calls. by rewrite Hhs.
  - eexists _, _, _. split; [apply iteration_returns_failure; left; done|].
    simpl. unfold attempt_calls. by rewrite Hhs.
  - eexists _, _, _. split; [apply (iteration_raises _ e1); left; done|].
    simpl. unfold attempt_calls. by rewrite Hhs.
Qed.

(** No exception leaves the loop: every pass ends in [break] or goes
    round again. *)
Lemma while_true_never_escapes script st e st' :
  while_true script st ≠ (Escaped e, st').
Proof.
  revert st. induction script as [|a script IH]; intros st; simpl; [done|].
  destruct (iteration_opens_with_handshake a st) as (r & st1 & evs & -> & _).
  destruct r; [done|apply IH].
Qed.

(** C2. Starting from a delay of 0, let [script] be failed attempts and
    [a] the next one, the n-th. If [a] fails, the delay field is
    [min n 60] afterwards. If [a] fails by returning a falsy result, the
    loop then warns and sleeps [min n 60] seconds. If [a] fails by raising,
    the error is logged and the next handshake follows at once, without a
    sleep. If [a] succeeds, [connect] returns with the delay back at 0. *)
Theorem backoff_after_failures script a :
  Forall failed script →
  let n := Z.of_nat (S (length script)) in
  (failed a →
     ∃ st', while_true (script ++ [a]) init = (Retrying, st') ∧
       delay st' = Z.min n 60) ∧
  (returns_failure a →
     ∃ st' tr, while_true (script ++ [a]) init = (Retrying, st') ∧
       trace st' = tr ++ [EvWarningFailed (Z.min n 60); EvSleep (Z.min n 60)]) ∧
  (∀ e, raises a e →
     ∀ b, ∃ tr tr',
       trace (while_true (script ++ [a; b]) init).2 =
       tr ++ [EvErrorException e; EvHandshake] ++ tr') ∧
  (hs_res a = Return true → ws_res a = Return true →
     ∃ st', connect (script ++ [a]) init = (Connected, st') ∧
       delay st' = 0%Z ∧ ping_task st' = true).
Proof.
  intros Hall n.
  destruct (while_true_failed script init Hall) as [evs Hrun].
  rewrite iter_bumped_from_zero in Hrun. simpl in Hrun.
  assert (Hn : bumped (Z.min (Z.of_nat (length script)) 60) = Z.min n 60).
  { subst n. unfold bumped.
    destruct (Z.ltb_spec (Z.min (Z.of_nat (length script)) 60) 60); lia. }
  split; [|split; [|split]].
  - intros Ha. rewrite while_true_app, Hrun. simpl.
    destruct (iteration_failed a (mkState (Z.min (Z.of_nat (length script)) 60) false evs) Ha)
      as [evs1 ->].
    eexists. split; [done|]. simpl. exact Hn.
  - intros Ha. rewrite while_true_app, Hrun. simpl.
    rewrite (iteration_returns_failure _ _ Ha). simpl. rewrite Hn.
    eexists _, (evs ++ attempt_calls a). split; [done|]. simpl.
    by rewrite <- app_assoc.
  - intros e Ha b. rewrite while_true_app, Hrun. simpl.
    rewrite (iteration_raises _ e _ Ha). simpl.
    match goal with |- context [iteration b ?s] =>
      destruct (iteration_opens_with_handshake b s) as (r & st' & evs' & -> & Htr)
    end.
    simpl in Htr.
    exists (evs ++ attempt_calls a), evs'.
    destruct r; simpl; rewrite Htr; unfold attempt_calls;
      rewrite <- !app_assoc; simpl; by rewrite <- !app_assoc.
  - intros Hhs Hws. unfold connect. rewrite while_true_app, Hrun. simpl.
    rewrite (iteration_connected _ _ Hhs Hws). simpl.
    eexists. split; [done|]. done.
Qed.

(** C3. A pass in which the handshake or the websocket raises does not let
    the exception out: it logs it as an error and goes round again, with
    the delay bumped but without any sleep, the error record being the
    last thing the pass does. A pass that fails by a falsy result ends in
    a warning and a sleep of the bumped delay. *)
Theorem exception_path_skips_sleep a e st :
  raises a e →
  ∃ st' evs,
    iteration a st = (Return false, st') ∧
    trace st' = trace st ++ evs ∧
    (∃ calls, evs = calls ++ [EvErrorException e]) ∧
    List.filter is_sleep evs = [] ∧
    delay st' = bumped (delay st) ∧
    ∀ a', returns_failure a' →
      ∃ st1, iteration a' st = (Return false, st1) ∧
        trace st1 = trace st ++ attempt_calls a' ++
          [EvWarningFailed (bumped (delay st)); EvSleep (bumped (delay st))].
Proof.
  intros Ha. eexists _, _. split; [by apply iteration_raises|].
  cbn [trace delay]. split; [reflexivity|].
  split; [by eexists|].
  split; [by rewrite List.filter_app, attempt_calls_no_sleep|].
  split; [done|].
  intros a' Ha'. eexists. split; [by apply iteration_returns_failure|]. done.
Qed.

End connection_facts.

(** ** The theorems on concrete links *)

Lemma open_close_lifecycle_witness :
  let st := Examples.fresh_registry in
  let str := λ s : string, s in
  (∃ st', (Registry.subscribe 1 "sid1" ;; Registry.unsubscribe str "sid1") st
            = (Return tt, st') ∧
     Registry.subscribers (Registry.heap st' 1) = ∅ ∧
     Registry.subscriptions st' !! "sid1" = None) ∧
  (∃ st', (Registry.open_stream 1 "rid1" ;; Registry.close_stream str "rid1") st
            = (Return tt, st') ∧
     Registry.streams (Registry.heap st' 1) = [] ∧
     Registry.strman_streams st' !! "rid1" = None) ∧
  Registry.unsubscribe str "unknown" st =
    (Return tt,
     Registry.mkState ∅ ∅ (Registry.heap st)
       [LogRecord "DSlink" DEBUG "Unknown sid unknown"]) ∧
  Registry.close_stream str "unknown" st =
    (Return tt,
     Registry.mkState ∅ ∅ (Registry.heap st)
       [LogRecord "DSLink" DEBUG "Unknown rid unknown"]).
Proof.
  intros st str.
  destruct (open_close_lifecycle str st 1 "sid1")
    as ((st1 & Hrun1 & _ & Hempty & Hmap1 & _) & _).
  destruct (open_close_lifecycle str st 1 "rid1")
    as (_ & (st2 & Hrun2 & _ & Hnil & Hmap2 & _) & _).
  destruct (open_close_lifecycle str st 1 "unknown") as (_ & _ & Hsid & Hrid).
  split; [|split; [|split]].
  - exists st1. split; [exact Hrun1|]. split; [|exact Hmap1].
    apply Hempty. simpl. apply empty_subseteq.
  - exists st2. split; [exact Hrun2|]. split; [|exact Hmap2].
    apply Hnil. reflexivity.
  - apply Hsid. reflexivity.
  - apply Hrid. reflexivity.
Defined.

Lemma reopen_overwrites_mapping_witness :
  let st := Examples.used_registry in
  (∃ st', Registry.subscribe 2 "sid1" st = (Return tt, st') ∧
     Registry.subscriptions st' !! "sid1" = Some 2 ∧
     "sid1" ∈ Registry.subscribers (Registry.heap st' 1)) ∧
  (∃ st', Registry.open_stream 2 "rid1" st = (Return tt, st') ∧
     Registry.strman_streams st' !! "rid1" = Some 2 ∧
     "rid1" ∈ Registry.streams (Registry.heap st' 1)).
Proof.
  intros st.
  assert (Hne : 1 ≠ 2) by lia.
  destruct (reopen_overwrites_mapping st 1 2 "sid1" Hne) as [Hsub _].
  destruct (reopen_overwrites_mapping st 1 2 "rid1" Hne) as [_ Hopen].
  split.
  - destruct Hsub as (st' & Hrun & Hmap & _ & Hkept & _); [reflexivity|].
    exists st'. split; [exact Hrun|]. split; [exact Hmap|].
    apply Hkept. simpl. apply elem_of_singleton. reflexivity.
  - destruct Hopen as (st' & Hrun & Hmap & _ & Hkept & _); [reflexivity|].
    exists st'. split; [exact Hrun|]. split; [exact Hmap|].
    apply Hkept. simpl. apply list_elem_of_singleton. reflexivity.
Defined.

Lemma duplicate_subscribe_leaks_witness :
  let st := Examples.fresh_registry in
  let str := λ s : string, s in
  Registry.subscribers_mapped st ∧
  ∃ st', (Registry.subscribe 1 "sid1" ;;
          (Registry.subscribe 2 "sid1" ;; Registry.unsubscribe str "sid1")) st
           = (Return tt, st') ∧
    "sid1" ∈ Registry.subscribers (Registry.heap st' 1) ∧
    Registry.subscriptions st' !! "sid1" = None ∧
    ¬ Registry.subscribers_mapped st'.
Proof.
  intros st str. split.
  - intros n sid Hin. simpl in Hin. by apply not_elem_of_empty in Hin.
  - assert (Hne : 1 ≠ 2) by lia.
    destruct (duplicate_subscribe_leaks str st 1 2 "sid1" Hne)
      as (st' & Hrun & _ & Hmap & Hleft & _ & Hbroken & _).
    exists st'. split; [exact Hrun|]. split; [exact Hleft|].
    split; [exact Hmap|exact Hbroken].
Defined.

Lemma load_nodes_recovery_chain_witness :
  ∃ st',
    Examples.toy_load_nodes Examples.disk_good_backup = (Return "{backup}", st') ∧
    Persistence.files st' !! "nodes.json" = Some "{backup}" ∧
    Persistence.files st' !! "nodes.json.bak" = None.
Proof.
  destruct (load_nodes_recovery_chain Examples.toy_loads Return Examples.toy_Node
              Examples.toy_path Examples.disk_good_backup) as (_ & _ & Hchain).
  destruct (Hchain eq_refl "garbage" eq_refl) as [_ Hcorrupt].
  destruct (Hcorrupt ValueError eq_refl) as [_ Hbackup].
  destruct (Hbackup "{backup}" eq_refl) as (st' & evs & Hrun & Hp & Hb & _).
  exists st'. split; [exact Hrun|]. split; [exact Hp|exact Hb].
Defined.

Lemma failed_restore_changes_disk_witness :
  ∃ st',
    Examples.toy_load_nodes Examples.disk_bad_backup = (Return "{}", st') ∧
    Persistence.files st' !! "nodes.json" = Some "junk" ∧
    Persistence.files st' !! "nodes.json.bak" = None ∧
    Persistence.files st' ≠ Persistence.files Examples.disk_bad_backup.
Proof.
  destruct (failed_restore_changes_disk Examples.toy_loads Return Examples.toy_Node
              Examples.toy_path Examples.disk_bad_backup
              "garbage" ValueError "junk" ValueError
              eq_refl eq_refl eq_refl eq_refl eq_refl)
    as (st' & evs & Hrun & Hp & Hb & _ & Hchanged & _).
  exists st'. split; [exact Hrun|]. split; [exact Hp|]. split; [exact Hb|exact Hchanged].
Defined.

Lemma save_nodes_rotation_witness :
  ∃ st1,
    Examples.toy_save_nodes Examples.dirty_link = (Return tt, st1) ∧
    Persistence.files st1 !! "nodes.json" = Some "{new}" ∧
    Persistence.files st1 !! "nodes.json.bak" = Some "{old}" ∧
    ∃ st2,
      Examples.toy_save_nodes
        (Persistence.set_nodes_changed true (Persistence.set_super_root "{newer}" st1))
        = (Return tt, st2) ∧
      Persistence.files st2 !! "nodes.json.bak" = Some "{new}".
Proof.
  destruct (save_nodes_rotation Return Return Examples.toy_path Examples.dirty_link
              "{new}" eq_refl eq_refl eq_refl)
    as (st1 & Hrun & _ & _ & Hp & Hb & Hnext).
  exists st1. split; [exact Hrun|]. split; [exact Hp|]. split; [exact Hb|].
  destruct (Hnext "{newer}" "{newer}" eq_refl) as (st2 & Hrun2 & Hb2 & _).
  exists st2. split; [exact Hrun2|]. exact (eq_trans Hb2 Hp).
Defined.

Lemma save_nodes_twice_one_write_witness :
  ∃ st1,
    (Examples.toy_save_nodes ;; Examples.toy_save_nodes) Examples.dirty_link
      = (Return tt, st1) ∧
    Examples.toy_save_nodes Examples.dirty_link = (Return tt, st1) ∧
    Persistence.nodes_changed st1 = false.
Proof.
  destruct (save_nodes_twice_one_write Return Return Examples.toy_path
              Examples.dirty_link) as [_ Hdirty].
  destruct (Hdirty "{new}" eq_refl eq_refl eq_refl)
    as (st1 & evs & Hrun & _ & _ & Hclear & _ & Htwice).
  exists st1. split; [exact Htwice|]. split; [exact Hrun|exact Hclear].
Defined.

Lemma failed_save_stops_timer_witness :
  ∃ st'',
    Examples.toy_reactor_step Examples.full_disk_link = (Return tt, st'') ∧
    Persistence.nodes_changed st'' = true ∧
    Persistence.delayed_calls st'' = [] ∧
    Examples.toy_reactor_step st'' = (Return tt, st'').
Proof.
  pose (st := Persistence.set_delayed_calls (λ _, []) Examples.full_disk_link).
  assert (Hfail : Examples.toy_save_nodes st
                  = (Raise IOError, (Examples.toy_save_nodes st).2))
    by (vm_compute; reflexivity).
  destruct (failed_save_stops_timer Return Return Examples.toy_path st IOError _ Hfail)
    as (_ & _ & _ & Hreactor).
  exact (Hreactor Examples.full_disk_link 1%Z eq_refl eq_refl).
Defined.

Lemma backoff_after_failures_witness :
  (∃ st' tr,
     Connection.while_true [Examples.broker_refuses; Examples.broker_refuses]
       Connection.init = (Connection.Retrying, st') ∧
     Connection.trace st' =
       tr ++ [Connection.EvWarningFailed 2; Connection.EvSleep 2]) ∧
  (∃ tr tr',
     Connection.trace
       (Connection.while_true [Examples.broker_raises; Examples.broker_accepts]
          Connection.init).2 =
     tr ++ [Connection.EvErrorException IOError; Connection.EvHandshake] ++ tr').
Proof.
  split.
  - assert (Hall : Forall Connection.failed [Examples.broker_refuses]).
    { apply Forall_cons; [exact I|apply Forall_nil_2]. }
    destruct (backoff_after_failures [Examples.broker_refuses]
                Examples.broker_refuses Hall) as (_ & Hsleep & _).
    exact (Hsleep (or_introl eq_refl)).
  - destruct (backoff_after_failures [] Examples.broker_raises (Forall_nil_2 _))
      as (_ & _ & Hraise & _).
    exact (Hraise IOError (or_introl eq_refl) Examples.broker_accepts).
Defined.

Lemma exception_path_skips_sleep_witness :
  ∃ st' evs,
    Connection.iteration Examples.broker_raises Connection.init = (Return false, st') ∧
    Connection.trace st' = evs ∧
    List.filter Connection.is_sleep evs = [] ∧
    Connection.delay st' = 1%Z.
Proof.
  destruct (exception_path_skips_sleep Examples.broker_raises IOError Connection.init
              (or_introl eq_refl))
    as (st' & evs & Hrun & Htr & _ & Hnosleep & Hdelay & _).
  exists st', evs. split; [exact Hrun|]. split; [exact Htr|].
  split; [exact Hnosleep|exact Hdelay].
Defined.

(** ** Sample runs *)

Example connect_after_refusal :
  Connection.connect [Examples.broker_refuses; Examples.broker_accepts] Connection.init =
  (Connection.Connected,
   Connection.mkState 0 true
     [Connection.EvHandshake; Connection.EvWarningFailed 1; Connection.EvSleep 1;
      Connection.EvHandshake; Connection.EvWsConnect; Connection.EvCreatePingTask;
      Connection.EvInfoConnected]).
Proof. reflexivity. Qed.

Example connect_after_exception :
  Connection.connect [Examples.broker_raises; Examples.broker_accepts] Connection.init =
  (Connection.Connected,
   Connection.mkState 0 true
     [Connection.EvHandshake; Connection.EvErrorException IOError;
      Connection.EvHandshake; Connection.EvWsConnect; Connection.EvCreatePingTask;
      Connection.EvInfoConnected]).
Proof. reflexivity. Qed.

Example delay_is_capped :
  Connection.delay
    (Connection.while_true (repeat Examples.broker_refuses 100) Connection.init).2 = 60%Z.
Proof. vm_compute. reflexivity. Qed.

Example failed_tick_on_full_disk :
  let st := (Examples.toy_reactor_step Examples.full_disk_link).2 in
  Persistence.files st !! "nodes.json" = Some "" ∧
  Persistence.files st !! "nodes.json.bak" = Some "{old}" ∧
  Persistence.nodes_changed st = true ∧
  Persistence.delayed_calls st = [] ∧
  Persistence.trace st =
    [Persistence.EvRename "nodes.json" "nodes.json.bak";
     Persistence.EvOpen "nodes.json" Persistence.W;
     Persistence.EvLog ERROR "Unhandled Error"].
Proof. vm_compute. repeat split; reflexivity. Qed.

Example clean_tick_requeues :
  Persistence.delayed_calls
    (Examples.toy_reactor_step
       (Persistence.set_faults [] Examples.full_disk_link)).2 =
  [(5%Z, Persistence.CallSaveTimer)].
Proof. vm_compute. reflexivity. Qed.

Example close_stream_on_stripped_node :
  Registry.close_stream (λ s : string, s) "rid1"
    (Registry.set_node 1 (λ nd, Registry.mkNode (Registry.subscribers nd) [])
       Examples.used_registry) =
  (Raise ValueError,
   Registry.set_node 1 (λ nd, Registry.mkNode (Registry.subscribers nd) [])
     Examples.used_registry).
Proof. reflexivity. Qed.

(** ** More on the registries *)

Section registry_invariants.
Context {Id : Type} `{Countable Id} {NodeRef : Type} `{EqDecision NodeRef}.
Variable str : Id → string.
Import Registry.

Local Abbreviation state := (@Registry.state Id _ _ NodeRef).

Implicit Types (st : state) (node n : NodeRef) (sid rid id : Id).

Lemma list_remove_first_elem (x : Id) (l : list Id) :
  x ∈ l → ∃ l', list_remove_first x l = Some l'.
Proof.
  induction l as [|y l IH]; intros Hx; [by apply elem_of_nil in Hx|]. simpl.
  destruct (decide (x = y)) as [->|Hxy]; [by eexists|].
  apply elem_of_cons in Hx as [Hx|Hx]; [done|].
  destruct (IH Hx) as [l' ->]. by eexists.
Qed.

Lemma list_remove_first_other (x y : Id) (l l' : list Id) :
  list_remove_first x l = Some l' → y ≠ x → y ∈ l → y ∈ l'.
Proof.
  revert l'. induction l as [|z l IH]; intros l' Hrm Hyx Hy; [done|].
  simpl in Hrm. destruct (decide (x = z)) as [->|Hxz].
  - injection Hrm as <-. apply elem_of_cons in Hy as [Hy|Hy]; [done|exact Hy].
  - destruct (list_remove_first x l) as [l0|] eqn:Hl0; [|done].
    injection Hrm as <-. apply elem_of_cons in Hy as [->|Hy].
    + apply elem_of_cons. by left.
    + apply elem_of_cons. right. by apply IH.
Qed.

(** X1. While no mapped sid is subscribed again, the mapping and the
    subscriber sets stay in step: [subscriptions_exact] survives a
    subscribe of an unmapped sid and any unsubscribe, and both return
    normally. *)
Theorem subscriptions_exact_kept st node sid :
  subscriptions_exact st →
  (subscriptions st !! sid = None →
   ∃ st', subscribe node sid st = (Return tt, st') ∧ subscriptions_exact st') ∧
  (∃ st', unsubscribe str sid st = (Return tt, st') ∧ subscriptions_exact st').
Proof.
  intros Hinv. split.
  - intros Hfresh. eexists. split; [apply subscribe_run|].
    intros n0 s0. simpl. destruct (decide (node = n0)) as [<-|Hn].
    + rewrite fn_lookup_insert. simpl. rewrite elem_of_union, elem_of_singleton.
      destruct (decide (sid = s0)) as [<-|Hs].
      * rewrite lookup_insert_eq. tauto.
      * rewrite lookup_insert_ne by done. rewrite (Hinv node s0).
        split; [intros [Heq|Hm]; [congruence|done]|tauto].
    + rewrite fn_lookup_insert_ne by done.
      destruct (decide (sid = s0)) as [<-|Hs].
      * rewrite lookup_insert_eq, (Hinv n0 sid), Hfresh.
        split; [done|]. intros [= Heq]. done.
      * rewrite lookup_insert_ne by done. apply Hinv.
  - destruct (subscriptions st !! sid) as [n|] eqn:Hsid.
    + eexists. split; [by apply unsubscribe_known|].
      intros n0 s0. simpl. destruct (decide (n = n0)) as [<-|Hn].
      * rewrite fn_lookup_insert. simpl.
        rewrite elem_of_difference, elem_of_singleton.
        destruct (decide (sid = s0)) as [<-|Hs].
        -- rewrite lookup_delete_eq. split; [intros [_ Hne]; done|done].
        -- rewrite lookup_delete_ne by done. rewrite (Hinv n s0).
           split; [tauto|]. intros Hm. split; [done|congruence].
      * rewrite fn_lookup_insert_ne by done.
        destruct (decide (sid = s0)) as [<-|Hs].
        -- rewrite lookup_delete_eq, (Hinv n0 sid), Hsid.
           split; [intros [= Heq]; done|done].
        -- rewrite lookup_delete_ne by done. apply Hinv.
    + eexists. split; [by apply unsubscribe_unknown|]. exact Hinv.
Qed.

(** X2. [streams_listed] survives [open_stream] and [close_stream], and
    under it both return normally: [list.remove] always finds the rid, so
    no ValueError leaves [close_stream]. *)
Theorem streams_listed_kept st node rid :
  streams_listed st →
  (∃ st', open_stream node rid st = (Return tt, st') ∧ streams_listed st') ∧
  (∃ st', close_stream str rid st = (Return tt, st') ∧ streams_listed st').
Proof.
  intros Hinv. split.
  - eexists. split; [apply open_stream_run|].
    intros r0 n0. simpl. destruct (decide (rid = r0)) as [<-|Hr].
    + rewrite lookup_insert_eq. intros [= <-]. rewrite fn_lookup_insert. simpl.
      apply elem_of_app. right. by apply list_elem_of_singleton.
    + rewrite lookup_insert_ne by done. intros Hm%Hinv.
      destruct (decide (node = n0)) as [<-|Hn].
      * rewrite fn_lookup_insert. simpl. apply elem_of_app. by left.
      * by rewrite fn_lookup_insert_ne.
  - destruct (strman_streams st !! rid) as [n|] eqn:Hrid.
    + destruct (list_remove_first_elem rid (streams (heap st n)) (Hinv _ _ Hrid))
        as [l Hl].
      eexists. split; [by apply (close_stream_known _ _ n rid l)|].
      intros r0 n0. simpl. destruct (decide (rid = r0)) as [<-|Hr].
      * by rewrite lookup_delete_eq.
      * rewrite lookup_delete_ne by done. intros Hm%Hinv.
        destruct (decide (n = n0)) as [<-|Hn].
        -- rewrite fn_lookup_insert. simpl.
           by apply (list_remove_first_other rid r0 (streams (heap st n))).
        -- by rewrite fn_lookup_insert_ne.
    + eexists. split; [by apply close_stream_unknown|]. exact Hinv.
Qed.

(** X3. When a mapped rid is missing from its node's stream list,
    [close_stream] raises ValueError, which [except KeyError] does not
    catch; nothing is changed or logged, the mapping stays, and so closing
    again raises again. *)
Theorem close_stream_escapes st n rid :
  strman_streams st !! rid = Some n →
  rid ∉ streams (heap st n) →
  close_stream str rid st = (Raise ValueError, st) ∧
  (close_stream str rid ;; close_stream str rid) st = (Raise ValueError, st).
Proof.
  intros Hrid Hnot.
  assert (Hrm : list_remove_first rid (streams (heap st n)) = None).
  { clear Hrid. induction (streams (heap st n)) as [|y l IH]; [done|]. simpl.
    apply not_elem_of_cons in Hnot as [Hne Hl].
    rewrite decide_False by done. by rewrite IH. }
  assert (Hrun : close_stream str rid st = (Raise ValueError, st)).
  { unfold close_stream, getitem, streams_remove. py_unfold. by rewrite Hrid, Hrm. }
  split; [exact Hrun|]. by apply bind_Raise.
Qed.

Lemma list_remove_first_snoc2 (x : Id) (l : list Id) :
  ∃ l', list_remove_first x ((l ++ [x]) ++ [x]) = Some l' ∧
        x ∈ l' ∧ length l' = S (length l).
Proof.
  induction l as [|y l (l' & Hl' & Hin & Hlen)]; simpl.
  - exists [x]. rewrite decide_True by done.
    split; [done|]. split; [by apply list_elem_of_singleton|done].
  - destruct (decide (x = y)) as [->|Hxy].
    + exists ((l ++ [y]) ++ [y]). split; [done|]. split.
      * apply elem_of_app. right. by apply list_elem_of_singleton.
      * rewrite !length_app. simpl. lia.
    + exists (y :: l'). rewrite Hl'. split; [done|]. split.
      * apply elem_of_cons. by right.
      * simpl. by rewrite Hlen.
Qed.

(** X4. Opening the same rid twice on one node and closing it once returns
    normally, but the node's stream list has grown by one and still holds
    the rid while the mapping has lost it: a further close only logs, so
    the entry stays in the list. *)
Theorem double_open_leaves_stream st node rid :
  ∃ st',
    (open_stream node rid ;; (open_stream node rid ;; close_stream str rid)) st
      = (Return tt, st') ∧
    rid ∈ streams (heap st' node) ∧
    length (streams (heap st' node)) = S (length (streams (heap st node))) ∧
    strman_streams st' !! rid = None ∧
    close_stream str rid st' =
      (Return tt, add_log (LogRecord "DSLink" DEBUG ("Unknown rid " +:+ str rid)) st').
Proof.
  destruct (list_remove_first_snoc2 rid (streams (heap st node)))
    as (l & Hl & Hin & Hlen).
  eexists. split.
  - rewrite (bind_Return _ _ _ _ _ (open_stream_run _ _ _)).
    rewrite (bind_Return _ _ _ _ _ (open_stream_run _ _ _)).
    apply (close_stream_known _ _ node rid l); simpl.
    + apply lookup_insert_eq.
    + by rewrite !fn_lookup_insert.
  - simpl. rewrite !fn_lookup_insert. simpl.
    split; [exact Hin|]. split; [exact Hlen|].
    split; [apply lookup_delete_eq|].
    apply close_stream_unknown. simpl. apply lookup_delete_eq.
Qed.

(** X5. The two managers keep out of each other's way: whatever way they
    end, [subscribe] and [unsubscribe] leave the stream mapping and every
    node's stream list as they were, and [open_stream] and [close_stream]
    leave the subscription mapping and every node's subscriber set as they
    were. *)
Theorem managers_do_not_interfere st node id :
  (∀ o st', subscribe node id st = (o, st') →
     strman_streams st' = strman_streams st ∧
     ∀ n, streams (heap st' n) = streams (heap st n)) ∧
  (∀ o st', unsubscribe str id st = (o, st') →
     strman_streams st' = strman_streams st ∧
     ∀ n, streams (heap st' n) = streams (heap st n)) ∧
  (∀ o st', open_stream node id st = (o, st') →
     subscriptions st' = subscriptions st ∧
     ∀ n, subscribers (heap st' n) = subscribers (heap st n)) ∧
  (∀ o st', close_stream str id st = (o, st') →
     subscriptions st' = subscriptions st ∧
     ∀ n, subscribers (heap st' n) = subscribers (heap st n)).
Proof.
  assert (Hat : ∀ (nd : @Node Id _ _) n0 n,
    streams nd = streams (heap st n0) →
    streams (<[n0 := nd]> (heap st) n) = streams (heap st n)).
  { intros nd n0 n Hnd. destruct (decide (n0 = n)) as [<-|Hn].
    - by rewrite fn_lookup_insert.
    - by rewrite fn_lookup_insert_ne. }
  assert (Hat' : ∀ (nd : @Node Id _ _) n0 n,
    subscribers nd = subscribers (heap st n0) →
    subscribers (<[n0 := nd]> (heap st) n) = subscribers (heap st n)).
  { intros nd n0 n Hnd. destruct (decide (n0 = n)) as [<-|Hn].
    - by rewrite fn_lookup_insert.
    - by rewrite fn_lookup_insert_ne. }
  split; [|split; [|split]]; intros o st'.
  - rewrite subscribe_run. intros [= <- <-]. simpl. split; [done|].
    intros n. by apply Hat.
  - destruct (subscriptions st !! id) as [n0|] eqn:Hid.
    + rewrite (unsubscribe_known _ _ n0) by done. intros [= <- <-]. simpl.
      split; [done|]. intros n. by apply Hat.
    + rewrite unsubscribe_unknown by done. by intros [= <- <-].
  - rewrite open_stream_run. intros [= <- <-]. simpl. split; [done|].
    intros n. by apply Hat'.
  - destruct (strman_streams st !! id) as [n0|] eqn:Hid.
    + destruct (list_remove_first id (streams (heap st n0))) as [l|] eqn:Hl.
      * rewrite (close_stream_known _ _ n0 id l) by done. intros [= <- <-]. simpl.
        split; [done|]. intros n. by apply Hat'.
      * rewrite (close_stream_value_error _ _ n0) by done. by intros [= <- <-].
    + rewrite close_stream_unknown by done. by intros [= <- <-].
Qed.

End registry_invariants.

(** ** More on loading and saving *)

Section persistence_more.
Context {Json Tree : Type}.
Variable json_loads : string → outcome Json.
Variable Node_from_json : Json → outcome Tree.
Variable Node_to_json : Tree → outcome Json.
Variable json_dumps : Json → outcome string.
Variable Node_new : string → Tree.
Variable nodes_path : string.
Import Persistence.

Local Abbreviation state := (@Persistence.state Tree).
Local Abbreviation bak := (nodes_path +:+ ".bak").
Local Abbreviation load_nodes :=
  (Persistence.load_nodes json_loads Node_from_json Node_new nodes_path).
Local Abbreviation save_nodes :=
  (Persistence.save_nodes Node_to_json json_dumps nodes_path).
Local Abbreviation save_timer :=
  (Persistence.save_timer Node_to_json json_dumps nodes_path).
Local Abbreviation reactor_step :=
  (Persistence.reactor_step Node_to_json json_dumps nodes_path).
Local Abbreviation reactor_steps :=
  (Persistence.reactor_steps Node_to_json json_dumps nodes_path).
Local Abbreviation deserialize := (Persistence.deserialize json_loads Node_from_json).
Local Abbreviation serialize := (Persistence.serialize Node_to_json json_dumps).
Local Abbreviation keeps q := (@Persistence.keeps_path Tree _ q).

Implicit Types (st : state) (p q text old : string).

(** X6. Saving a changed tree and loading it back, with no failing system
    call, returns what the written text deserializes to: the saved tree
    whenever the serializer and the deserializer agree on it. The load
    leaves the disk as the save left it. *)
Theorem save_then_load st text t :
  faults st = [] → nodes_changed st = true →
  serialize (super_root st) = Return text →
  deserialize text = Return t →
  ∃ st1 st2,
    save_nodes st = (Return tt, st1) ∧
    load_nodes st1 = (Return t, st2) ∧
    files st2 = files st1 ∧
    (save_nodes ;; load_nodes) st = (Return t, st2).
Proof.
  intros Hf Hc Hser Hdes.
  pose proof (save_nodes_dirty Node_to_json json_dumps nodes_path st text Hf Hc Hser)
    as Hsave.
  eexists _, _. split; [exact Hsave|].
  match type of Hsave with _ = (_, ?s1) =>
    pose proof (load_nodes_valid json_loads Node_from_json Node_new nodes_path
                  s1 text t eq_refl (lookup_insert_eq _ _ _) Hdes) as Hload
  end.
  split; [exact Hload|]. split; [reflexivity|].
  by rewrite (bind_Return _ _ _ _ _ Hsave).
Qed.

(** *** Which files a call can touch *)

Lemma keeps_path_ret {A} q (a : A) : keeps q (mret a).
Proof. intros st o st' [= <- <-]. done. Qed.

Lemma keeps_path_gets {A} q (f : state → A) : keeps q (gets f).
Proof. intros st o st' [= <- <-]. done. Qed.

Lemma keeps_path_lift {A} q (o : outcome A) : keeps q (lift o).
Proof. intros st o' st' [= <- <-]. done. Qed.

Lemma keeps_path_emit q ev : keeps q (modify (emit ev)).
Proof. intros st o st' [= <- <-]. done. Qed.

Lemma keeps_path_syscall q e : keeps q (syscall e).
Proof.
  intros st o st'. unfold syscall.
  destruct (faults st) as [|[|] l]; intros [= <- <-]; done.
Qed.

Lemma keeps_path_bind {A B} q (m : py state A) (f : A → py state B) :
  keeps q m → (∀ a, keeps q (f a)) → keeps q (m ≫= f).
Proof.
  intros Hm Hf st o st'. py_unfold.
  destruct (m st) as [[a|e] s1] eqn:Hrun; intros Hk.
  - rewrite (Hf a s1 o st' Hk). by apply (Hm _ _ _ Hrun).
  - injection Hk as <- <-. by apply (Hm _ _ _ Hrun).
Qed.


Lemma keeps_path_os_remove q p : q ≠ p → keeps q (os_remove p).
Proof.
  intros Hq. apply keeps_path_bind; [apply keeps_path_syscall|].
  intros _ st o st'. unfold unlink.
  destruct (files st !! p); intros [= <- <-]; [|done].
  simpl. by apply lookup_delete_ne.
Qed.



Lemma keeps_path_open_W q p : q ≠ p → keeps q (open_ p W).
Proof.
  intros Hq. apply keeps_path_bind; [apply keeps_path_syscall|].
  intros _ st o st' [= <- <-]. simpl. by apply lookup_insert_ne.
Qed.

Lemma open_returns_path st p m f st' :
  open_ p m st = (Return f, st') → f = p.
Proof.
  unfold open_, syscall, open_file. py_unfold.
  destruct (faults st) as [|[|] l]; simpl; [|done|];
    (destruct m; [destruct (files st !! p)|]; by intros [= <- <-]).
Qed.


Lemma keeps_path_file_write q f data : q ≠ f → keeps q (file_write f data).
Proof.
  intros Hq. apply keeps_path_bind; [apply keeps_path_syscall|].
  intros _ st o st' [= <- <-]. simpl. by apply lookup_insert_ne.
Qed.

Lemma keeps_path_mark q e ev : keeps q (syscall e ;; modify (emit ev)).
Proof.
  apply keeps_path_bind; [apply keeps_path_syscall|].
  intros _. apply keeps_path_emit.
Qed.


(** From [open(path, "w")] to the end of [save_nodes]. *)
Lemma keeps_path_write_block q :
  q ≠ nodes_path →
  keeps q (nodes_file ← open_ nodes_path W ;
           root ← gets super_root ;
           obj ← lift (Node_to_json root) ;
           text ← lift (json_dumps obj) ;
           file_write nodes_file text ;;
           file_flush nodes_file ;;
           os_fsync nodes_file ;;
           file_close nodes_file ;;
           modify (set_nodes_changed false)).
Proof.
  intros Hq st o st'. py_unfold.
  destruct (open_ nodes_path W st) as [[f|e] s1] eqn:Hopen.
  - apply open_returns_path in Hopen as Hf. subst f.
    apply (keeps_path_open_W q nodes_path Hq) in Hopen. rewrite <- Hopen.
    clear Hopen. revert s1 o st'.
    change (keeps q (root ← gets super_root ;
                     obj ← lift (Node_to_json root) ;
                     text ← lift (json_dumps obj) ;
                     file_write nodes_path text ;;
                     file_flush nodes_path ;;
                     os_fsync nodes_path ;;
                     file_close nodes_path ;;
                     modify (set_nodes_changed false))).
    apply keeps_path_bind; [apply keeps_path_gets|]. intros root.
    apply keeps_path_bind; [apply keeps_path_lift|]. intros obj.
    apply keeps_path_bind; [apply keeps_path_lift|]. intros text.
    apply keeps_path_bind; [by apply keeps_path_file_write|]. intros _.
    do 3 (apply keeps_path_bind; [apply keeps_path_mark|]; intros _).
    intros s o' s' [= <- <-]. done.
  - intros [= <- <-]. by apply (keeps_path_open_W q nodes_path Hq) in Hopen.
Qed.




(** *** What a save leaves of the previous tree *)

Lemma bind_inv {S A B} (m : py S A) (f : A → py S B) s o s' :
  (m ≫= f) s = (o, s') →
  (∃ e, m s = (Raise e, s') ∧ o = Raise e) ∨
  (∃ a s1, m s = (Return a, s1) ∧ f a s1 = (o, s')).
Proof.
  py_unfold. destruct (m s) as [[a|e] s1]; intros Hrun.
  - right. eauto.
  - left. injection Hrun as <- <-. eauto.
Qed.

Lemma os_rename_outcome st src dst o st' old :
  files st !! src = Some old →
  os_rename src dst st = (o, st') →
  match o with
  | Return _ => files st' = <[dst := old]> (delete src (files st))
  | Raise _ => files st' = files st
  end.
Proof.
  intros Hsrc. unfold os_rename, syscall, move. py_unfold.
  destruct (faults st) as [|[|] l]; simpl; rewrite ?Hsrc; by intros [= <- <-].
Qed.

Lemma save_keeps_old_copy st old o st' :
  files st !! nodes_path = Some old →
  save_nodes st = (o, st') →
  (files st' !! nodes_path = Some old ∨ files st' !! bak = Some old) ∧
  (nodes_changed st = true → o = Return tt → files st' !! bak = Some old).
Proof.
  intros Hold. unfold Persistence.save_nodes.
  assert (Hne : nodes_path ≠ bak) by apply not_eq_sym, bak_path_ne.
  rewrite (bind_Return _ _ _ (nodes_changed st) st) by done.
  destruct (nodes_changed st); [|intros [= <- <-]; split; [by left|done]].
  rewrite exists_bind.
  intros [(e & Hrm & ->)|(a & s1 & Hrm & Hrun)]%bind_inv.
  { split; [left|done].
    destruct (bool_decide (is_Some (files st !! bak)));
      [apply (keeps_path_os_remove nodes_path bak Hne) in Hrm
      |apply (keeps_path_ret nodes_path) in Hrm]; by rewrite Hrm. }
  assert (Hold1 : files s1 !! nodes_path = Some old).
  { destruct (bool_decide (is_Some (files st !! bak)));
      [apply (keeps_path_os_remove nodes_path bak Hne) in Hrm
      |apply (keeps_path_ret nodes_path) in Hrm]; by rewrite Hrm. }
  clear Hrm. rewrite exists_bind, Hold1 in Hrun. simpl in Hrun.
  apply bind_inv in Hrun as [(e & Hmv & ->)|(a2 & s2 & Hmv & Hrun)].
  { apply (os_rename_outcome _ _ _ _ _ old Hold1) in Hmv.
    split; [left; by rewrite Hmv|done]. }
  apply (os_rename_outcome _ _ _ _ _ old Hold1) in Hmv.
  apply (keeps_path_write_block bak (bak_path_ne _)) in Hrun.
  assert (Hbak : files st' !! bak = Some old).
  { rewrite Hrun, Hmv. apply lookup_insert_eq. }
  split; [by right|done].
Qed.

(** X8. A save never loses the tree that was on disk: if the nodes file
    held [old] before [save_nodes], then afterwards, whichever system
    calls failed and however the save ended, [old] is the content of the
    nodes file or of the backup; after a save that wrote, it is the
    backup. *)
Theorem old_tree_survives_save st old o st' :
  files st !! nodes_path = Some old →
  save_nodes st = (o, st') →
  (files st' !! nodes_path = Some old ∨ files st' !! bak = Some old) ∧
  (nodes_changed st = true → o = Return tt → files st' !! bak = Some old).
Proof. apply save_keeps_old_copy. Qed.

(** X9. A save that raised and left a nodes file that does not
    deserialize is made good by the next load: with no failing system
    call, [load_nodes] restores the backup and returns the tree that was
    on disk before the save. *)
Theorem load_recovers_failed_save st old t e st1 partial e1 :
  files st !! nodes_path = Some old → deserialize old = Return t →
  save_nodes st = (Raise e, st1) →
  files st1 !! nodes_path = Some partial → deserialize partial = Raise e1 →
  ∃ st2,
    load_nodes (set_faults [] st1) = (Return t, st2) ∧
    files st2 !! nodes_path = Some old ∧
    files st2 !! bak = None.
Proof.
  intros Hold Hdes Hsave Hpartial Hbad.
  destruct (save_keeps_old_copy st old _ st1 Hold Hsave) as [[Hp|Hb] _].
  { rewrite Hp in Hpartial. injection Hpartial as <-. congruence. }
  pose proof (load_nodes_restore json_loads Node_from_json Node_new nodes_path
                (set_faults [] st1) partial e1 old eq_refl Hpartial Hbad Hb) as Hload.
  rewrite Hdes in Hload. eexists. split; [exact Hload|]. cbn [files].
  split; [apply lookup_insert_eq|].
  rewrite lookup_insert_ne by (apply not_eq_sym, bak_path_ne).
  apply lookup_delete_eq.
Qed.

(** X10. A save that raised and left no nodes file at all (the rename
    done, the open failed) is not made good: the backup holds the tree
    that was on disk, but [load_nodes] looks at the backup only when the
    nodes file exists, so it returns the default tree and leaves the disk
    as it is. *)
Theorem load_ignores_backup_alone st old e st1 :
  files st !! nodes_path = Some old →
  save_nodes st = (Raise e, st1) →
  files st1 !! nodes_path = None →
  load_nodes st1 = (Return (Node_new ""), st1) ∧
  files st1 !! bak = Some old.
Proof.
  intros Hold Hsave Hgone. split.
  - by apply load_nodes_missing.
  - destruct (save_keeps_old_copy st old _ st1 Hold Hsave) as [[Hp|Hb] _];
      [congruence|done].
Qed.

(** X11. Loading twice is loading once: with no failing system call, a
    second [load_nodes] returns the tree the first returned and leaves the
    disk as the first left it. *)
Theorem load_nodes_twice st t st1 :
  faults st = [] →
  load_nodes st = (Return t, st1) →
  ∃ st2, load_nodes st1 = (Return t, st2) ∧ files st2 = files st1.
Proof.
  intros Hf Hrun.
  assert (Hne : nodes_path ≠ bak) by apply not_eq_sym, bak_path_ne.
  destruct (files st !! nodes_path) as [text|] eqn:Hp.
  2: { rewrite load_nodes_missing in Hrun by done. injection Hrun as <- <-.
       eexists. split; [by apply load_nodes_missing|done]. }
  destruct (deserialize text) as [t0|e] eqn:Hdes.
  { rewrite (load_nodes_valid _ _ _ _ _ text t0) in Hrun by done.
    injection Hrun as <- <-.
    eexists. split; [by apply (load_nodes_valid _ _ _ _ _ text)|done]. }
  destruct (files st !! bak) as [btext|] eqn:Hb.
  2: { rewrite (load_nodes_no_backup _ _ _ _ _ text e) in Hrun by done.
       injection Hrun as <- <-.
       eexists. split; [by apply (load_nodes_no_backup _ _ _ _ _ text e)|done]. }
  rewrite (load_nodes_restore _ _ _ _ _ text e btext) in Hrun by done.
  injection Hrun as <- <-.
  destruct (deserialize btext) as [t1|e1] eqn:Hdes1.
  - eexists. split.
    + apply (load_nodes_valid _ _ _ _ _ btext); [done| |done].
      simpl. apply lookup_insert_eq.
    + reflexivity.
  - eexists. split.
    + apply (load_nodes_no_backup _ _ _ _ _ btext e1); [done| |done|]; simpl.
      * apply lookup_insert_eq.
      * rewrite lookup_insert_ne by done. apply lookup_delete_eq.
    + reflexivity.
Qed.

(** *** The timer while saves succeed *)

Lemma save_nodes_quiet st text :
  faults st = [] → serialize (super_root st) = Return text →
  ∃ st' evs,
    save_nodes st = (Return tt, st') ∧
    faults st' = [] ∧ super_root st' = super_root st ∧
    nodes_changed st' = false ∧ delayed_calls st' = delayed_calls st ∧
    trace st' = trace st ++ evs ∧
    List.filter is_write evs =
      (if nodes_changed st then [EvWrite nodes_path text] else []).
Proof.
  intros Hf Hser. destruct (nodes_changed st) eqn:Hc.
  - eexists _, _. split; [by apply save_nodes_dirty|]. cbn.
    repeat (split; [reflexivity|]).
    by destruct (files st !! bak), (files st !! nodes_path).
  - exists st, []. split; [by apply save_nodes_clean|].
    by rewrite app_nil_r.
Qed.

Lemma reactor_step_quiet st secs text :
  faults st = [] → serialize (super_root st) = Return text →
  delayed_calls st = [(secs, CallSaveTimer)] →
  ∃ st' evs,
    reactor_step st = (Return tt, st') ∧
    faults st' = [] ∧ super_root st' = super_root st ∧
    nodes_changed st' = false ∧
    delayed_calls st' = [(5%Z, CallSaveTimer)] ∧
    trace st' = trace st ++ evs ∧
    List.filter is_write evs =
      (if nodes_changed st then [EvWrite nodes_path text] else []).
Proof.
  intros Hf Hser Hq.
  destruct (save_nodes_quiet (set_delayed_calls (λ _, []) st) text Hf Hser)
    as (st1 & evs & Hsave & Hf1 & Hroot1 & Hc1 & Hq1 & Htr1 & Hw).
  eexists _, evs. split.
  - unfold Persistence.reactor_step. rewrite Hq.
    apply try_except_Return. by apply save_timer_reschedules.
  - simpl. rewrite Hq1. done.
Qed.

(** X12. While saves succeed the timer keeps itself going, one call at a
    time: starting with one queued tick, no failing system call and a tree
    that serializes, any number of reactor turns (at least one) ends with
    the flag clear and exactly one tick queued, five seconds out; only the
    first turn writes, and only if the tree was changed. *)
Theorem timer_keeps_one_tick_queued st secs text n :
  faults st = [] → serialize (super_root st) = Return text →
  delayed_calls st = [(secs, CallSaveTimer)] →
  ∃ st' evs,
    reactor_steps (S n) st = (Return tt, st') ∧
    nodes_changed st' = false ∧
    delayed_calls st' = [(5%Z, CallSaveTimer)] ∧
    trace st' = trace st ++ evs ∧
    List.filter is_write evs =
      (if nodes_changed st then [EvWrite nodes_path text] else []).
Proof.
  revert st secs. induction n as [|n IH]; intros st secs Hf Hser Hq.
  - destruct (reactor_step_quiet st secs text Hf Hser Hq)
      as (st1 & evs & Hrun & _ & _ & Hc & Hq1 & Htr & Hw).
    exists st1, evs. split; [|done].
    simpl. by rewrite (bind_Return _ _ _ _ _ Hrun).
  - destruct (reactor_step_quiet st secs text Hf Hser Hq)
      as (st1 & evs & Hrun & Hf1 & Hroot1 & Hc1 & Hq1 & Htr1 & Hw1).
    destruct (IH st1 5%Z Hf1 ltac:(by rewrite Hroot1) Hq1)
      as (st2 & evs2 & Hrun2 & Hc2 & Hq2 & Htr2 & Hw2).
    exists st2, (evs ++ evs2). split.
    + change (reactor_steps (S (S n))) with (reactor_step ;; reactor_steps (S n)).
      by rewrite (bind_Return _ _ _ _ _ Hrun).
    + split; [done|]. split; [done|]. split.
      * by rewrite Htr2, Htr1, app_assoc.
      * rewrite List.filter_app, Hw1, Hw2, Hc1. by rewrite app_nil_r.
Qed.

End persistence_more.

(** ** More on the connect loop *)

Section connection_more.
Import Connection.

Implicit Types (a : attempt) (st : state) (script : list attempt).

Lemma bumped_in_range d : (0 ≤ d ≤ 60)%Z → (1 ≤ bumped d ≤ 60)%Z.
Proof. intros Hd. unfold bumped. destruct (Z.ltb_spec d 60); lia. Qed.

Lemma attempt_calls_in_range a : Forall delay_in_range (attempt_calls a).
Proof.
  unfold attempt_calls. destruct (hs_res a) as [[|]|]; repeat constructor.
Qed.

Lemma iteration_run a st :
  iteration a st =
  (Return (accepted a),
   mkState (bumped (delay st)) (if accepted a then true else ping_task st)
     (trace st ++ pass_events a (bumped (delay st)))).
Proof.
  unfold accepted, pass_events.
  destruct (hs_res a) as [[|]|e1] eqn:Hhs; [destruct (ws_res a) as [[|]|e2] eqn:Hws|..].
  - rewrite iteration_connected by done. unfold attempt_calls. by rewrite Hhs.
  - rewrite iteration_returns_failure by (right; done). done.
  - rewrite (iteration_raises _ e2) by (right; done). done.
  - rewrite iteration_returns_failure by (left; done). done.
  - rewrite (iteration_raises _ e1) by (left; done). done.
Qed.

Lemma while_true_run script st :
  ∃ d pt,
    while_true script st =
    (if existsb accepted script then Connected else Retrying,
     mkState d pt (trace st ++ loop_events script (delay st))) ∧
    ((0 ≤ delay st ≤ 60)%Z → (0 ≤ d ≤ 60)%Z) ∧
    (existsb accepted script = true → pt = true).
Proof.
  revert st. induction script as [|a script IH]; intros st.
  - exists (delay st), (ping_task st). simpl. rewrite app_nil_r.
    split; [by destruct st|done].
  - simpl. rewrite iteration_run. destruct (accepted a) eqn:Ha; simpl.
    + eexists _, _. split; [by rewrite app_nil_r|].
      split; [|done]. intros Hd. pose proof (bumped_in_range _ Hd). lia.
    + destruct (IH (mkState (bumped (delay st)) (ping_task st)
                      (trace st ++ pass_events a (bumped (delay st)))))
        as (d & pt & -> & Hd & Hpt).
      exists d, pt. simpl. rewrite <- app_assoc. split; [done|].
      split; [|done]. intros Hd0. apply Hd. simpl.
      pose proof (bumped_in_range _ Hd0). lia.
Qed.

Lemma loop_events_cons a script d :
  loop_events (a :: script) d =
  pass_events a (bumped d) ++
  if accepted a then [] else loop_events script (bumped d).
Proof. reflexivity. Qed.

Lemma pass_events_in_range a d :
  (1 ≤ d ≤ 60)%Z → Forall delay_in_range (pass_events a d).
Proof.
  intros Hd. unfold pass_events. apply Forall_app.
  split; [apply attempt_calls_in_range|].
  destruct (hs_res a) as [[|]|]; [destruct (ws_res a) as [[|]|]|..];
    repeat constructor; lia.
Qed.

Lemma loop_events_in_range script d :
  (0 ≤ d ≤ 60)%Z → Forall delay_in_range (loop_events script d).
Proof.
  revert d. induction script as [|a script IH]; intros d Hd; [constructor|].
  rewrite loop_events_cons.
  pose proof (bumped_in_range _ Hd) as Hb.
  apply Forall_app. split; [by apply pass_events_in_range|].
  destruct (accepted a); [constructor|]. apply IH. lia.
Qed.

(** X13. The loop never announces or sleeps a delay outside 1..60
    seconds: entered with a delay between 0 and 60 (it is 0 after
    [__init__] and after every success), whatever the broker answers and
    however long it goes on, every warning and every [asyncio.sleep] it
    adds carries between 1 and 60 seconds, and the delay field stays
    between 0 and 60. *)
Theorem delays_stay_in_range script st :
  (0 ≤ delay st ≤ 60)%Z →
  ∃ evs,
    trace (connect script st).2 = trace st ++ evs ∧
    Forall delay_in_range evs ∧
    (0 ≤ delay (connect script st).2 ≤ 60)%Z.
Proof.
  intros Hd. unfold connect.
  destruct (while_true_run script st) as (d & pt & -> & Hrange & _).
  pose proof (loop_events_in_range script _ Hd) as Hall.
  destruct (existsb accepted script); simpl.
  - exists (loop_events script (delay st) ++ [EvInfoConnected]).
    split; [by rewrite app_assoc|]. split; [|lia].
    apply Forall_app. split; [done|repeat constructor].
  - exists (loop_events script (delay st)). split; [done|]. split; [done|by apply Hrange].
Qed.

Lemma failed_not_accepted a : failed a ↔ accepted a = false.
Proof.
  unfold failed, accepted.
  destruct (hs_res a) as [[|]|], (ws_res a) as [[|]|]; split; try done;
    intros Hne; by destruct Hne.
Qed.

Lemma existsb_accepted_failed script :
  Forall failed script → existsb accepted script = false.
Proof.
  induction 1 as [|a script Ha%failed_not_accepted _ IH]; [done|].
  simpl. by rewrite Ha, IH.
Qed.

Lemma pass_events_handshakes a d :
  List.filter (λ ev, bool_decide (ev = EvHandshake)) (pass_events a d) = [EvHandshake].
Proof.
  unfold pass_events, attempt_calls.
  by destruct (hs_res a) as [[|]|]; [destruct (ws_res a) as [[|]|]|..].
Qed.

Lemma pass_events_tasks a d :
  List.filter (λ ev, bool_decide (ev = EvCreatePingTask)) (pass_events a d) =
  if accepted a then [EvCreatePingTask] else [].
Proof.
  unfold pass_events, attempt_calls, accepted.
  by destruct (hs_res a) as [[|]|]; [destruct (ws_res a) as [[|]|]|..].
Qed.

Lemma loop_events_failed_counts script d :
  Forall failed script →
  length (List.filter (λ ev, bool_decide (ev = EvHandshake)) (loop_events script d))
    = length script ∧
  List.filter (λ ev, bool_decide (ev = EvCreatePingTask)) (loop_events script d) = [].
Proof.
  intros Hall. revert d.
  induction Hall as [|a script Ha%failed_not_accepted _ IH]; intros d; [done|].
  rewrite loop_events_cons, Ha, !List.filter_app, pass_events_handshakes,
    pass_events_tasks, Ha.
  destruct (IH (bumped d)) as [Hh Ht]. rewrite Ht. split; [|done].
  simpl. by rewrite Hh.
Qed.

(** X14. [connect] returns at the first attempt the broker accepts and
    does not look at what would have come after it: it has then made one
    handshake per attempt, created exactly one ping task, logged
    "Connected" last, and left the delay at 0 and a ping task in place,
    from whatever state it was entered. *)
Theorem connect_stops_at_first_accept script a rest st :
  Forall failed script → accepted a = true →
  connect (script ++ a :: rest) st = connect (script ++ [a]) st ∧
  ∃ st' evs,
    connect (script ++ [a]) st = (Connected, st') ∧
    delay st' = 0%Z ∧ ping_task st' = true ∧
    trace st' = trace st ++ evs ++ [EvCreatePingTask; EvInfoConnected] ∧
    length (List.filter (λ ev, bool_decide (ev = EvHandshake)) evs)
      = S (length script) ∧
    List.filter (λ ev, bool_decide (ev = EvCreatePingTask)) evs = [].
Proof.
  intros Hall Ha.
  destruct (while_true_run script st) as (d & pt & Hrun & _ & _).
  rewrite (existsb_accepted_failed _ Hall) in Hrun.
  assert (Hstep : ∀ tail,
    while_true (script ++ a :: tail) st =
    (Connected,
     mkState (bumped d) true
       (trace st ++ loop_events script (delay st) ++ pass_events a (bumped d)))).
  { intros tail. rewrite while_true_app, Hrun. simpl.
    rewrite iteration_run, Ha. simpl. by rewrite <- app_assoc. }
  unfold connect. rewrite !Hstep. split; [done|].
  assert (Hpass : pass_events a (bumped d) =
                  [EvHandshake; EvWsConnect; EvCreatePingTask]).
  { unfold accepted in Ha. unfold pass_events, attempt_calls.
    by destruct (hs_res a) as [[|]|]; [destruct (ws_res a) as [[|]|]|..]. }
  destruct (loop_events_failed_counts script (delay st) Hall) as [Hh Ht].
  exists (set_delay 0 (emit EvInfoConnected
            (mkState (bumped d) true
               (trace st ++ loop_events script (delay st) ++ pass_events a (bumped d))))),
    (loop_events script (delay st) ++ [EvHandshake; EvWsConnect]).
  split; [done|]. split; [done|]. split; [done|]. split.
  - simpl. rewrite Hpass, <- !app_assoc. done.
  - rewrite !List.filter_app, Ht, length_app, Hh. simpl. split; [lia|done].
Qed.

Lemma slept_app (l1 l2 : list event) : slept (l1 ++ l2) = (slept l1 + slept l2)%Z.
Proof.
  induction l1 as [|ev l1 IH]; [done|].
  change (slept ((ev :: l1) ++ l2))
    with (match ev with EvSleep d => d | _ => 0 end + slept (l1 ++ l2))%Z.
  change (slept (ev :: l1))
    with (match ev with EvSleep d => d | _ => 0 end + slept l1)%Z.
  rewrite IH. lia.
Qed.

Lemma slept_pass_events a d :
  slept (pass_events a d) =
  match hs_res a, ws_res a with
  | Return false, _ | Return true, Return false => d
  | _, _ => 0%Z
  end.
Proof.
  unfold pass_events, attempt_calls.
  destruct (hs_res a) as [[|]|]; [destruct (ws_res a) as [[|]|]|..];
    cbn; lia.
Qed.

Lemma slept_loop_events script d :
  Forall failed script →
  (0 ≤ d)%Z → (d + Z.of_nat (length script) ≤ 60)%Z →
  (2 * slept (loop_events script d)
     ≤ Z.of_nat (length script) * (2 * d + Z.of_nat (length script) + 1))%Z ∧
  (Forall returns_failure script →
   (2 * slept (loop_events script d)
      = Z.of_nat (length script) * (2 * d + Z.of_nat (length script) + 1))%Z).
Proof.
  intros Hall. revert d.
  induction Hall as [|a script Ha _ IH]; intros d Hd Hn; [done|].
  apply failed_not_accepted in Ha as Hacc.
  rewrite loop_events_cons, Hacc, slept_app, slept_pass_events.
  rewrite length_cons in *.
  assert (Hb : bumped d = (d + 1)%Z).
  { unfold bumped. destruct (Z.ltb_spec d 60); lia. }
  rewrite Hb.
  destruct (IH (d + 1)%Z) as [Hle Heq]; [lia|lia|].
  split.
  - destruct (hs_res a) as [[|]|]; [destruct (ws_res a) as [[|]|]|..]; nia.
  - intros Hret. apply Forall_cons_1 in Hret as [Hra Hret].
    specialize (Heq Hret).
    destruct Hra as [->|[-> ->]]; nia.
Qed.

(** X15. How long the loop has slept: after n consecutive failed attempts
    on a new connection, n at most 60, it has spent at most n(n+1)/2
    seconds in [asyncio.sleep], and exactly that when every attempt failed
    by a falsy result rather than by an exception. *)
Theorem total_backoff script :
  Forall failed script →
  (length script ≤ 60)%nat →
  let n := Z.of_nat (length script) in
  (2 * slept (trace (connect script init).2) ≤ n * (n + 1))%Z ∧
  (Forall returns_failure script →
   (2 * slept (trace (connect script init).2) = n * (n + 1))%Z).
Proof.
  intros Hall Hlen n. unfold connect.
  destruct (while_true_run script init) as (d & pt & -> & _ & _).
  rewrite (existsb_accepted_failed _ Hall). cbn [snd trace init app].
  destruct (slept_loop_events script 0 Hall) as [Hle Heq]; [lia|lia|].
  change (delay init) with 0%Z. subst n. split; [lia|].
  intros Hret. specialize (Heq Hret). lia.
Qed.

End connection_more.

(** ** Padding, the auth parameter and the websocket url *)

Section link_facts.
Context {Url : Type}.
Variable sha256_digest : string → string.
Variable urlsafe_b64encode : string → string.
Variable urlparse : string → Url.
Variable url_port : Url → option Z.
Import Link.

Local Abbreviation link := (@Link.link).
Local Abbreviation get_auth := (Link.get_auth sha256_digest urlsafe_b64encode).
Local Abbreviation get_url :=
  (Link.get_url sha256_digest urlsafe_b64encode urlparse url_port).

Implicit Types (s body rest tail : string) (l : link).

Lemma append_cons c s1 s2 : String c s1 +:+ s2 = String c (s1 +:+ s2).
Proof. reflexivity. Qed.

Lemma append_assoc s1 s2 s3 : (s1 +:+ s2) +:+ s3 = s1 +:+ (s2 +:+ s3).
Proof.
  induction s1 as [|c s1 IH]; [done|]. by rewrite !append_cons, IH.
Qed.

Lemma append_empty_r s : s +:+ "" = s.
Proof. induction s as [|c s IH]; [done|]. by rewrite append_cons, IH. Qed.

Lemma equals_snoc k : "=" +:+ equals k = equals (S k).
Proof. reflexivity. Qed.

Lemma length_equals k : String.length (equals k) = k.
Proof. induction k as [|k IH]; [done|]. simpl. by rewrite IH. Qed.

Lemma pad_bound n fuel : 3 ≤ fuel → (4 - n mod 4) mod 4 ≤ fuel.
Proof.
  intros Hfuel. pose proof (Nat.mod_upper_bound (4 - n mod 4) 4 ltac:(lia)). lia.
Qed.

Lemma add_padding_loop_pads fuel s :
  (4 - String.length s mod 4) mod 4 ≤ fuel →
  add_padding_loop fuel s =
  Some (s +:+ equals ((4 - String.length s mod 4) mod 4)).
Proof.
  revert s. induction fuel as [|fuel IH]; intros s Hfuel.
  - unfold add_padding_loop.
    destruct (Nat.eqb_spec (String.length s mod 4) 0) as [Hz|Hnz].
    + rewrite Hz. by rewrite append_empty_r.
    + pose proof (Nat.mod_upper_bound (String.length s) 4 ltac:(lia)) as Hlt.
      exfalso. revert Hfuel Hnz Hlt.
      destruct (String.length s mod 4) as [|[|[|[|r]]]]; cbn; lia.
  - cbn [add_padding_loop].
    destruct (Nat.eqb_spec (String.length s mod 4) 0) as [Hz|Hnz].
    + rewrite Hz. by rewrite append_empty_r.
    + pose proof (Nat.mod_upper_bound (String.length s) 4 ltac:(lia)) as Hlt.
      assert (Hlen : String.length (s +:+ "=") = S (String.length s)).
      { rewrite string_length_app. simpl. lia. }
      assert (Hk : (4 - String.length s mod 4) mod 4
                   = S ((4 - String.length (s +:+ "=") mod 4) mod 4)).
      { rewrite Hlen.
        replace (S (String.length s)) with (String.length s + 1) by lia.
        rewrite (Nat.Div0.add_mod (String.length s) 1 4).
        destruct (String.length s mod 4) as [|[|[|[|r]]]]; try done; lia. }
      rewrite IH by lia. rewrite Hk, <- equals_snoc. by rewrite append_assoc.
Qed.

(** X16. [add_padding] appends the fewest "=" that bring the length to a
    multiple of 4, never more than three, and nothing else; three passes
    of its loop always suffice, and padding a padded text changes
    nothing. *)
Theorem add_padding_pads s :
  ∃ k,
    k < 4 ∧
    add_padding s = Some (s +:+ equals k) ∧
    (String.length s + k) mod 4 = 0 ∧
    (∀ j, j < k → (String.length s + j) mod 4 ≠ 0) ∧
    (∀ fuel, 3 ≤ fuel → add_padding_loop fuel s = add_padding s) ∧
    add_padding (s +:+ equals k) = Some (s +:+ equals k).
Proof.
  pose proof (Nat.mod_upper_bound (String.length s) 4 ltac:(lia)) as Hlt.
  pose proof (Nat.mod_upper_bound (4 - String.length s mod 4) 4 ltac:(lia)) as Hk.
  exists ((4 - String.length s mod 4) mod 4).
  assert (Hmod : ∀ j, (String.length s + j) mod 4
                      = (String.length s mod 4 + j mod 4) mod 4).
  { intros j. apply Nat.Div0.add_mod. }
  split; [done|].
  split; [unfold add_padding; by apply add_padding_loop_pads, pad_bound|].
  split; [|split; [|split]].
  - rewrite Hmod.
    destruct (String.length s mod 4) as [|[|[|[|r]]]]; try done; lia.
  - intros j Hj. rewrite Hmod.
    destruct (String.length s mod 4) as [|[|[|[|r]]]]; [..|lia];
      cbn in Hj |- *; destruct j as [|[|[|j]]]; try done; lia.
  - intros fuel Hfuel. unfold add_padding.
    rewrite !add_padding_loop_pads by (by apply pad_bound). done.
  - unfold add_padding. rewrite add_padding_loop_pads by (by apply pad_bound).
    rewrite string_length_app, length_equals.
    assert (Hz : (String.length s + (4 - String.length s mod 4) mod 4) mod 4 = 0).
    { rewrite Hmod.
      destruct (String.length s mod 4) as [|[|[|[|r]]]]; try done; lia. }
    rewrite Hz. by rewrite append_empty_r.
Qed.

(** *** Stripping the padding and putting it back *)

Lemma strip_cons_other c s :
  c ≠ "="%char →
  replace_from "=" "" 0 (String c s) = String c (replace_from "=" "" 0 s).
Proof.
  intros Hc. cbn [replace_from String.prefix].
  destruct (ascii_dec "=" c) as [Heq|_]; [by destruct Hc|done].
Qed.

Lemma strip_cons_equals s :
  replace_from "=" "" 0 (String "="%char s) = replace_from "=" "" 0 s.
Proof.
  cbn [replace_from String.prefix].
  destruct (ascii_dec "=" "=") as [_|Hne]; [by destruct s|by destruct Hne].
Qed.

Lemma strip_all s : "="%char ∉ String.list_ascii_of_string (replace "=" "" s).
Proof.
  unfold replace. induction s as [|c s IH]; [apply not_elem_of_nil|].
  destruct (ascii_dec c "=") as [->|Hc].
  - by rewrite strip_cons_equals.
  - rewrite strip_cons_other by done. cbn [String.list_ascii_of_string].
    apply not_elem_of_cons. split; [by apply not_eq_sym|done].
Qed.

Lemma strip_body body tail :
  "="%char ∉ String.list_ascii_of_string body →
  replace "=" "" (body +:+ tail) = body +:+ replace "=" "" tail.
Proof.
  unfold replace. induction body as [|c body IH]; intros Hbody; [done|].
  cbn [String.list_ascii_of_string] in Hbody.
  apply not_elem_of_cons in Hbody as [Hc Hbody].
  rewrite !append_cons, strip_cons_other by (by apply not_eq_sym).
  by rewrite IH.
Qed.

Lemma strip_equals k : replace "=" "" (equals k) = "".
Proof.
  unfold replace. induction k as [|k IH]; [done|].
  cbn [equals]. by rewrite strip_cons_equals.
Qed.

(** X17. The padding [get_auth] strips is the padding [add_padding] puts
    back: for a text of the form base64 gives, some characters other than
    "=" followed by at most three "=" and a multiple of 4 long, removing
    every "=" and padding again returns the text. *)
Theorem strip_then_pad body k :
  "="%char ∉ String.list_ascii_of_string body →
  k < 4 → (String.length body + k) mod 4 = 0 →
  replace "=" "" (body +:+ equals k) = body ∧
  add_padding (replace "=" "" (body +:+ equals k)) = Some (body +:+ equals k).
Proof.
  intros Hbody Hk Hlen.
  assert (Hstrip : replace "=" "" (body +:+ equals k) = body).
  { rewrite strip_body by done. by rewrite strip_equals, append_empty_r. }
  split; [exact Hstrip|]. rewrite Hstrip.
  unfold add_padding. rewrite add_padding_loop_pads by (by apply pad_bound).
  do 2 f_equal.
  pose proof (Nat.mod_upper_bound (String.length body) 4 ltac:(lia)) as Hlt.
  rewrite (Nat.Div0.add_mod (String.length body) k 4) in Hlen.
  rewrite (Nat.mod_small k 4) in Hlen by done.
  revert Hlen Hlt.
  destruct (String.length body mod 4) as [|[|[|[|r]]]];
    destruct k as [|[|[|[|k]]]]; cbn; intros; try done; lia.
Qed.

(** *** The auth parameter *)

(** X18. [get_auth] raises TypeError while no server configuration is
    stored and KeyError when the stored one has no salt; otherwise it
    returns a text without any "=". When the link needs auth, [get_url]
    passes either exception on, whatever the broker url. *)
Theorem get_auth_outcome l :
  (server_config l = None → get_auth l = Raise TypeError) ∧
  (∀ cfg, server_config l = Some cfg → cfg !! "salt" = None →
     get_auth l = Raise KeyError) ∧
  (∀ auth, get_auth l = Return auth →
     ("="%char ∉ String.list_ascii_of_string auth) ∧
     ∃ cfg salt, server_config l = Some cfg ∧ cfg !! "salt" = Some salt) ∧
  (∀ e, needs_auth l = true → get_auth l = Raise e → get_url l = Raise e).
Proof.
  split; [|split; [|split]].
  - intros Hcfg. unfold Link.get_auth. by rewrite Hcfg.
  - intros cfg Hcfg Hsalt. unfold Link.get_auth. by rewrite Hcfg, Hsalt.
  - intros auth. unfold Link.get_auth.
    destruct (server_config l) as [cfg|]; [|done].
    destruct (cfg !! "salt") as [salt|] eqn:Hsalt; [|done].
    intros [= <-]. split; [apply strip_all|eauto].
  - intros e Hneeds Hauth. unfold Link.get_url. by rewrite Hneeds, Hauth.
Qed.

(** *** The websocket url *)






Lemma drop_last_short n s : String.length s ≤ n → drop_last n s = "".
Proof.
  intros Hlen. unfold drop_last.
  replace (String.length s - n) with 0 by lia. by destruct s.
Qed.

(** X20. [get_url] does not look at what the broker url is: of a url of
    five characters or fewer nothing is left, and the text returned for a
    link without auth and token is just "/ws?dsId=" and the dsid, with
    port 80 unless the parse finds one. *)
Theorem get_url_short_broker l :
  String.length (broker l) ≤ 5 →
  needs_auth l = false → token l = None →
  get_url l =
  Return ("/ws?dsId=" +:+ dsid l, urlparse ("/ws?dsId=" +:+ dsid l),
          default 80%Z (url_port (urlparse ("/ws?dsId=" +:+ dsid l)))).
Proof.
  intros Hlen Hneeds Htoken. unfold Link.get_url.
  rewrite Hneeds, Htoken, drop_last_short by done.
  change (replace "http" "ws" "" +:+ ("/ws?dsId=" +:+ dsid l))
    with ("/ws?dsId=" +:+ dsid l).
  by destruct (url_port _).
Qed.

End link_facts.

(** ** The further theorems on concrete links *)

Lemma subscriptions_exact_kept_witness :
  let str := λ s : string, s in
  Registry.subscriptions_exact Examples.fresh_registry ∧
  (∃ st', Registry.subscribe 1 "sid1" Examples.fresh_registry = (Return tt, st') ∧
     Registry.subscriptions_exact st') ∧
  (∃ st', Registry.unsubscribe str "sid1" Examples.fresh_registry = (Return tt, st') ∧
     Registry.subscriptions_exact st').
Proof.
  intros str.
  assert (Hinv : Registry.subscriptions_exact Examples.fresh_registry).
  { intros n sid. simpl. rewrite lookup_empty. split; [|done].
    intros Hin. by apply not_elem_of_empty in Hin. }
  split; [exact Hinv|].
  destruct (subscriptions_exact_kept str Examples.fresh_registry 1 "sid1" Hinv)
    as [Hsub Hunsub].
  split; [exact (Hsub eq_refl)|exact Hunsub].
Defined.

Lemma streams_listed_kept_witness :
  let str := λ s : string, s in
  Registry.streams_listed Examples.used_registry ∧
  (∃ st', Registry.open_stream 2 "rid1" Examples.used_registry = (Return tt, st') ∧
     Registry.streams_listed st') ∧
  (∃ st', Registry.close_stream str "rid1" Examples.used_registry = (Return tt, st') ∧
     Registry.streams_listed st').
Proof.
  intros str.
  assert (Hinv : Registry.streams_listed Examples.used_registry).
  { intros rid n. simpl. intros Hm.
    apply lookup_singleton_Some in Hm as [<- <-]. simpl.
    by apply list_elem_of_singleton. }
  split; [exact Hinv|].
  exact (streams_listed_kept str Examples.used_registry 2 "rid1" Hinv).
Defined.

Lemma close_stream_escapes_witness :
  Registry.close_stream (λ s : string, s) "rid1" Examples.stripped_registry
  = (Raise ValueError, Examples.stripped_registry).
Proof.
  refine (proj1 (close_stream_escapes (λ s : string, s) Examples.stripped_registry
                   1 "rid1" eq_refl _)).
  simpl. apply not_elem_of_nil.
Defined.

Lemma managers_do_not_interfere_witness :
  let r := Registry.subscribe 2 "rid1" Examples.used_registry in
  Registry.strman_streams r.2 = Registry.strman_streams Examples.used_registry ∧
  Registry.streams (Registry.heap r.2 1)
  = Registry.streams (Registry.heap Examples.used_registry 1).
Proof.
  intros r.
  destruct (proj1 (managers_do_not_interfere (λ s : string, s)
                     Examples.used_registry 2 "rid1")
              r.1 r.2 (surjective_pairing r)) as [Hmap Hlists].
  split; [exact Hmap|exact (Hlists 1)].
Defined.

Lemma save_then_load_witness :
  ∃ st2,
    (Examples.toy_save_nodes ;; Examples.toy_load_nodes) Examples.dirty_link
      = (Return "{new}", st2).
Proof.
  destruct (save_then_load Examples.toy_loads Return Return Return Examples.toy_Node
              Examples.toy_path Examples.dirty_link "{new}" "{new}"
              eq_refl eq_refl eq_refl eq_refl)
    as (st1 & st2 & _ & _ & _ & Hboth).
  exists st2. exact Hboth.
Defined.


Lemma old_tree_survives_save_witness :
  let r := Examples.toy_save_nodes Examples.full_disk_link in
  r.1 = Raise IOError ∧
  (Persistence.files r.2 !! "nodes.json" = Some "{old}" ∨
   Persistence.files r.2 !! "nodes.json.bak" = Some "{old}").
Proof.
  intros r. split; [reflexivity|].
  exact (proj1 (old_tree_survives_save Return Return Examples.toy_path
                  Examples.full_disk_link "{old}" r.1 r.2 eq_refl
                  (surjective_pairing r))).
Defined.

Lemma load_recovers_failed_save_witness :
  ∃ st1 st2,
    Examples.toy_save_nodes Examples.full_disk_link = (Raise IOError, st1) ∧
    Examples.toy_load_after st1 = (Return "{old}", st2) ∧
    Persistence.files st2 !! "nodes.json" = Some "{old}".
Proof.
  assert (Hsave : ∃ st1,
    Examples.toy_save_nodes Examples.full_disk_link = (Raise IOError, st1) ∧
    Persistence.files st1 !! Examples.toy_path = Some "").
  { eexists. split; vm_compute; reflexivity. }
  destruct Hsave as (st1 & Hsave & Hpartial).
  destruct (load_recovers_failed_save Examples.toy_loads Return Return Return
              Examples.toy_Node Examples.toy_path Examples.full_disk_link
              "{old}" "{old}" IOError st1 "" ValueError
              eq_refl eq_refl Hsave Hpartial eq_refl)
    as (st2 & Hload & Hp & _).
  exists st1, st2. split; [exact Hsave|]. split; [exact Hload|exact Hp].
Defined.

Lemma load_ignores_backup_alone_witness :
  let st1 := (Examples.toy_save_nodes Examples.locked_disk_link).2 in
  Examples.toy_load_nodes st1 = (Return "{}", st1) ∧
  Persistence.files st1 !! "nodes.json.bak" = Some "{old}".
Proof.
  intros st1.
  assert (Hsave : Examples.toy_save_nodes Examples.locked_disk_link
                  = (Raise IOError, st1)) by reflexivity.
  exact (load_ignores_backup_alone Examples.toy_loads Return Return Return
           Examples.toy_Node Examples.toy_path Examples.locked_disk_link
           "{old}" IOError st1 eq_refl Hsave eq_refl).
Defined.

Lemma load_nodes_twice_witness :
  ∃ st1 st2,
    Examples.toy_load_nodes Examples.disk_good_backup = (Return "{backup}", st1) ∧
    Examples.toy_load_nodes st1 = (Return "{backup}", st2) ∧
    Persistence.files st2 = Persistence.files st1.
Proof.
  assert (Hfirst : ∃ st1,
    Examples.toy_load_nodes Examples.disk_good_backup = (Return "{backup}", st1)).
  { eexists. vm_compute. reflexivity. }
  destruct Hfirst as [st1 Hfirst].
  destruct (load_nodes_twice Examples.toy_loads Return Examples.toy_Node
              Examples.toy_path Examples.disk_good_backup "{backup}" st1
              eq_refl Hfirst) as (st2 & Hsecond & Hfiles).
  exists st1, st2. split; [exact Hfirst|]. split; [exact Hsecond|exact Hfiles].
Defined.

Lemma timer_keeps_one_tick_queued_witness :
  ∃ st',
    Persistence.reactor_steps Return Return Examples.toy_path 3 Examples.ticking_link
      = (Return tt, st') ∧
    Persistence.delayed_calls st' = [(5%Z, Persistence.CallSaveTimer)] ∧
    Persistence.nodes_changed st' = false.
Proof.
  destruct (timer_keeps_one_tick_queued Return Return Examples.toy_path
              Examples.ticking_link 1%Z "{new}" 2 eq_refl eq_refl eq_refl)
    as (st' & evs & Hrun & Hc & Hq & _).
  exists st'. split; [exact Hrun|]. split; [exact Hq|exact Hc].
Defined.

Lemma delays_stay_in_range_witness :
  ∃ evs,
    Connection.trace
      (Connection.connect (repeat Examples.broker_refuses 70) Connection.init).2
      = evs ∧
    Forall Connection.delay_in_range evs.
Proof.
  assert (Hd : (0 ≤ Connection.delay Connection.init ≤ 60)%Z) by (simpl; lia).
  destruct (delays_stay_in_range (repeat Examples.broker_refuses 70)
              Connection.init Hd) as (evs & Htr & Hall & _).
  exists evs. split; [exact Htr|exact Hall].
Defined.

Lemma connect_stops_at_first_accept_witness :
  Connection.connect
    [Examples.broker_raises; Examples.broker_accepts; Examples.broker_refuses]
    Connection.init
  = Connection.connect [Examples.broker_raises; Examples.broker_accepts]
      Connection.init.
Proof.
  assert (Hall : Forall Connection.failed [Examples.broker_raises]).
  { apply Forall_cons; [exact I|apply Forall_nil_2]. }
  exact (proj1 (connect_stops_at_first_accept [Examples.broker_raises]
                  Examples.broker_accepts [Examples.broker_refuses]
                  Connection.init Hall eq_refl)).
Defined.

Lemma total_backoff_witness :
  (2 * Connection.slept
         (Connection.trace
            (Connection.connect (repeat Examples.broker_refuses 3) Connection.init).2)
   = 3 * (3 + 1))%Z.
Proof.
  assert (Hall : Forall Connection.failed (repeat Examples.broker_refuses 3)).
  { repeat (apply Forall_cons; [exact I|]). apply Forall_nil_2. }
  assert (Hret : Forall Connection.returns_failure (repeat Examples.broker_refuses 3)).
  { repeat (apply Forall_cons; [left; reflexivity|]). apply Forall_nil_2. }
  assert (Hlen : (length (repeat Examples.broker_refuses 3) ≤ 60)%nat)
    by (simpl; lia).
  exact (proj2 (total_backoff (repeat Examples.broker_refuses 3) Hall Hlen) Hret).
Defined.

Lemma strip_then_pad_witness :
  Link.add_padding (Link.replace "=" "" "c2VjcmV0cw==") = Some "c2VjcmV0cw==".
Proof.
  assert (Hbody : "="%char ∉ String.list_ascii_of_string "c2VjcmV0cw").
  { cbn. rewrite !not_elem_of_cons. repeat split; try done. apply not_elem_of_nil. }
  assert (Hk : 2 < 4) by lia.
  exact (proj2 (strip_then_pad "c2VjcmV0cw" 2 Hbody Hk eq_refl)).
Defined.

Lemma get_auth_outcome_witness :
  Examples.toy_get_auth Examples.default_link = Raise TypeError ∧
  Examples.toy_get_auth Examples.secure_link = Return "c2VjcmV0cw" ∧
  "="%char ∉ String.list_ascii_of_string "c2VjcmV0cw".
Proof.
  destruct (get_auth_outcome Examples.toy_digest Examples.toy_b64
              Examples.toy_urlparse Examples.toy_port Examples.default_link)
    as (Hnone & _).
  destruct (get_auth_outcome Examples.toy_digest Examples.toy_b64
              Examples.toy_urlparse Examples.toy_port Examples.secure_link)
    as (_ & _ & Hret & _).
  split; [exact (Hnone eq_refl)|]. split; [reflexivity|].
  exact (proj1 (Hret "c2VjcmV0cw" eq_refl)).
Defined.


Lemma get_url_short_broker_witness :
  Examples.toy_get_url (Link.mkLink "conn" None "link-0" false None "")
  = Return ("/ws?dsId=link-0", "/ws?dsId=link-0", 80%Z).
Proof.
  assert (Hlen : String.length "conn" ≤ 5) by (simpl; lia).
  exact (get_url_short_broker Examples.toy_digest Examples.toy_b64
           Examples.toy_urlparse Examples.toy_port
           (Link.mkLink "conn" None "link-0" false None "") Hlen eq_refl eq_refl).
Defined.
